(** * ShopRoute: grocery item classification and store-layout ordering

  A shallow embedding of [backend/app/db.py] and [backend/app/organize.py]
  (with the older [archive/db.py] layout query kept for comparison), and the
  properties of the resolver, the escalation chain, the heuristic classifier,
  the layout resolver and the ordering engine.

  Modelling conventions.
  - Python [str] values are Rocq [string]s.  The character predicates and
    case maps are those of Python restricted to ASCII: characters with code
    128 and above are neither whitespace nor cased.
  - The SQLite file is a record of tables; [item_cache] (primary key [item])
    is a [gmap] from the key to the remaining columns, the layout tables are
    lists of rows in insertion order.  The [created_at] column is left out.
  - Python exceptions are the [Raise] results of a small state-and-error
    monad whose state holds the database and the log of model calls.
  - The remote model service and [json.loads] are fields of an environment
    record [Env]; nothing is assumed about them. *)

From Stdlib Require Import Strings.String Strings.Ascii NArith Lists.List.
From Stdlib Require Import Sorting.Sorted Sorting.Permutation Lia Bool.
From stdpp Require Import base gmap strings list sorting.

Local Open Scope string_scope.
Local Open Scope list_scope.
Set Warnings "-register-all".

(** ** Python string operations (ASCII) *)

Module PyStr.

Definition code (c : ascii) : N := N_of_ascii c.

(** [str.isspace] on one character: TAB, LF, VT, FF, CR, FS, GS, RS, US
    and the space. *)
Definition is_space (c : ascii) : bool :=
  let n := code c in
  ((9 <=? n) && (n <=? 13) || (28 <=? n) && (n <=? 32))%N.

Definition is_upper (c : ascii) : bool :=
  let n := code c in ((65 <=? n) && (n <=? 90))%N.

Definition is_lower (c : ascii) : bool :=
  let n := code c in ((97 <=? n) && (n <=? 122))%N.

Definition to_lower (c : ascii) : ascii :=
  if is_upper c then ascii_of_N (code c + 32) else c.

Definition to_upper (c : ascii) : ascii :=
  if is_lower c then ascii_of_N (code c - 32) else c.

(** [s.lower()] *)
Fixpoint lower (s : string) : string :=
  match s with
  | EmptyString => EmptyString
  | String c s' => String (to_lower c) (lower s')
  end.

Fixpoint lstrip (s : string) : string :=
  match s with
  | EmptyString => EmptyString
  | String c s' => if is_space c then lstrip s' else s
  end.

Fixpoint rstrip (s : string) : string :=
  match s with
  | EmptyString => EmptyString
  | String c s' =>
      match rstrip s' with
      | EmptyString => if is_space c then EmptyString else String c EmptyString
      | r => String c r
      end
  end.

(** [s.strip()] *)
Definition strip (s : string) : string := rstrip (lstrip s).

(** [s.title()]: a cased character is upper-cased when the character before
    it is not cased, and lower-cased otherwise. *)
Fixpoint title_go (previous_is_cased : bool) (s : string) : string :=
  match s with
  | EmptyString => EmptyString
  | String c s' =>
      if is_lower c || is_upper c
      then String (if previous_is_cased then to_lower c else to_upper c)
                  (title_go true s')
      else String c (title_go false s')
  end.

Definition title (s : string) : string := title_go false s.

(** [s.split()] with no argument: maximal runs of non-whitespace. *)
Fixpoint split_go (cur : string) (s : string) : list string :=
  match s with
  | EmptyString => if decide (cur = EmptyString) then [] else [cur]
  | String c s' =>
      if is_space c
      then (if decide (cur = EmptyString) then [] else [cur]) ++ split_go EmptyString s'
      else split_go (String.append cur (String c EmptyString)) s'
  end.

Definition split (s : string) : list string := split_go EmptyString s.

(** [sep.join(l)] *)
Definition join (sep : string) (l : list string) : string := String.concat sep l.

(** [sub in s] *)
Fixpoint contains (sub s : string) : bool :=
  String.prefix sub s ||
  match s with
  | EmptyString => false
  | String _ s' => contains sub s'
  end.

(** [s[:n]] *)
Fixpoint slice_to (n : nat) (s : string) : string :=
  match n, s with
  | S n', String c s' => String c (slice_to n' s')
  | _, _ => EmptyString
  end.

Fixpoint drop (n : nat) (s : string) : string :=
  match n, s with
  | S n', String _ s' => drop n' s'
  | _, _ => s
  end.

(** The text that follows the first occurrence of [pat] in [s]. *)
Fixpoint find_after (pat s : string) : option string :=
  if String.prefix pat s then Some (drop (String.length pat) s)
  else match s with
       | EmptyString => None
       | String _ s' => find_after pat s'
       end.

(** The text that precedes the first occurrence of [pat] in [s]. *)
Fixpoint take_until (pat s : string) : option string :=
  if String.prefix pat s then Some EmptyString
  else match s with
       | EmptyString => None
       | String c s' => option_map (String c) (take_until pat s')
       end.

(** Truthiness of a [str]. *)
Definition truthy (s : string) : bool := negb (String.eqb s EmptyString).

(** Truthiness of an optional [str] argument ([None] or a string). *)
Definition truthy_opt (o : option string) : bool :=
  match o with Some s => truthy s | None => false end.

(** [sorted(l, key=..., reverse=...)] is stable; [sort_by before l] keeps
    the original order of [x], [y] whenever [before x y] holds both ways. *)
Section Sort.
Context {A : Type} (before : A -> A -> bool).

Fixpoint insert_sorted (x : A) (l : list A) : list A :=
  match l with
  | [] => [x]
  | y :: l' => if before x y then x :: y :: l' else y :: insert_sorted x l'
  end.

Fixpoint sort_by (l : list A) : list A :=
  match l with
  | [] => []
  | x :: l' => insert_sorted x (sort_by l')
  end.
End Sort.

Definition nl : string := String "010"%char EmptyString.
Definition dq : string := String "034"%char EmptyString.

End PyStr.

(** ** Exceptions and results *)

Inductive exn : Type :=
| ValueError (msg : string)
| AttributeError.

Inductive result (A : Type) : Type :=
| Ok (a : A)
| Raise (e : exn).
Arguments Ok {A} a.
Arguments Raise {A} e.

(** An insertion-ordered dictionary of lists ([OrderedDict] and
  [defaultdict(list)] are used the same way): [od_append k v d] is
  [d[k].append(v)], creating the entry at the end when [k] is new. *)
Fixpoint od_append (k v : string) (d : list (string * list string))
: list (string * list string) :=
match d with
| [] => [(k, [v])]
| (k', vs) :: d' =>
    if decide (k = k') then (k', vs ++ [v]) :: d'
    else (k', vs) :: od_append k v d'
end.

Fixpoint od_get (k : string) (d : list (string * list string))
: option (list string) :=
match d with
| [] => None
| (k', vs) :: d' => if decide (k = k') then Some vs else od_get k d'
end.

Definition od_keys (d : list (string * list string)) : list string := d.*1.

(** ** backend/app/db.py *)

Module Db.

(** A row of [item_cache] without its key. *)
Record CacheRow : Type := mkCacheRow {
  category : string;
  normalized_name : string;
  source : string
}.

Global Instance CacheRow_eq_dec : EqDecision CacheRow.
Proof. solve_decision. Defined.

Record StoreRow : Type := mkStore {
  s_store_id : nat;
  s_name : string;
  s_chain : option string
}.

Record LocationRow : Type := mkLocation {
  sl_location_id : nat;
  sl_store_id : nat;
  sl_city : option string;
  sl_state : option string;
  sl_postal_code : option string
}.

Record ZoneRow : Type := mkZone {
  sz_zone_id : nat;
  sz_location_id : nat;
  sz_zone_name : string;
  sz_zone_order : nat
}.

Record ZoneCategoryRow : Type := mkZoneCategory {
  zc_zone_id : nat;
  zc_category : string
}.

Record Database : Type := mkDatabase {
  item_cache : gmap string CacheRow;
  stores : list StoreRow;
  store_locations : list LocationRow;
  store_zones : list ZoneRow;
  zone_categories : list ZoneCategoryRow
}.

Definition set_item_cache (d : Database) (c : gmap string CacheRow) : Database :=
  {| item_cache := c;
     stores := stores d;
     store_locations := store_locations d;
     store_zones := store_zones d;
     zone_categories := zone_categories d |}.

Definition normalize_item_key (item : string) : string :=
  PyStr.lower (PyStr.strip item).

(** [SELECT category, normalized_name, source FROM item_cache WHERE item = ?] *)
Definition get_cached_item (d : Database) (item : string) : option CacheRow :=
  item_cache d !! item.

(** The upsert: the [ON CONFLICT(item) DO UPDATE ... WHERE] clause decides
    what happens on a key conflict (it takes precedence over [OR REPLACE]
    for the constraint it names), so an existing row is rewritten only when
    its [source] is not ['manual']. *)
Definition cache_item (d : Database)
    (item category normalized_name source : string) : Database :=
  let key := normalize_item_key item in
  let row := mkCacheRow category normalized_name source in
  match item_cache d !! key with
  | Some old =>
      if decide (Db.source old = "manual") then d
      else set_item_cache d (<[key := row]> (item_cache d))
  | None => set_item_cache d (<[key := row]> (item_cache d))
  end.

(** [INSERT OR REPLACE ... VALUES (?, ?, ?, 'manual')] *)
Definition override_item (d : Database)
    (item category normalized_name : string) : Database :=
  set_item_cache d
    (<[normalize_item_key item := mkCacheRow category normalized_name "manual"]>
       (item_cache d)).

Definition not_found (store_name : string) (postal_code : option string) : exn :=
  ValueError ("Store '" ++ store_name ++ "' with postal code '" ++
              match postal_code with Some p => p | None => "None" end ++
              "' not found.")%string.

(** Joins are nested loops over the tables in insertion order.  Where a
    query has no [ORDER BY], or its [ORDER BY] leaves ties, SQL does not fix
    the order of the rows and SQLite follows the indexes its plan walks; the
    statements below that depend on such an order are made for every order
    the query allows. *)
Definition get_store_id (d : Database) (store_name : string)
    (postal_code : option string) : result nat :=
  let rows :=
    if PyStr.truthy_opt postal_code then
      s ← stores d;
      sl ← store_locations d;
      if decide (s_store_id s = sl_store_id sl ∧ s_name s = store_name
                 ∧ sl_postal_code sl = postal_code)
      then [s_store_id s] else []
    else
      s ← stores d;
      if decide (s_name s = store_name) then [s_store_id s] else []
  in
  match rows with
  | row :: _ => Ok row
  | [] => Raise (not_found store_name postal_code)
  end.

(** The rows of the layout query before [ORDER BY]. *)
Definition layout_rows (d : Database) (store_id : nat)
  : list (nat * (string * string)) :=
  s ← stores d;
  sl ← store_locations d;
  sz ← store_zones d;
  zc ← zone_categories d;
  if decide (s_store_id s = sl_store_id sl
             ∧ sl_location_id sl = sz_location_id sz
             ∧ sz_zone_id sz = zc_zone_id zc
             ∧ s_store_id s = store_id)
  then [(sz_zone_order sz, (sz_zone_name sz, zc_category zc))] else [].

(** [ORDER BY sz.zone_order ASC].  Here rows with equal [zone_order] keep
    the order of the join; the database is free to return them in any order
    (see [query_order]). *)
Definition order_by_zone_order (rows : list (nat * (string * string)))
  : list (string * string) :=
  (PyStr.sort_by (fun r1 r2 => Nat.leb r1.1 r2.1) rows).*2.

(** The [OrderedDict] loop. *)
Definition group_zones (rows : list (string * string))
  : list (string * list string) :=
  fold_left (fun zones '(zone_name, category) => od_append zone_name category zones)
            rows [].

Definition truthy_id (store_id : option nat) : bool :=
  match store_id with Some (S _) => true | _ => false end.

Definition layout_of_id (d : Database) (store_id : nat)
  : list (string * list string) :=
  group_zones (order_by_zone_order (layout_rows d store_id)).

Definition get_store_layout (d : Database) (store_id : option nat)
    (store_name postal_code : option string)
  : result (list (string * list string)) :=
  match store_id with
  | Some (S n) => Ok (layout_of_id d (S n))
  | _ =>
      if PyStr.truthy_opt store_name then
        match get_store_id d (default "" store_name) postal_code with
        | Raise e => Raise e
        | Ok (S n) => Ok (layout_of_id d (S n))
        | Ok O => Raise (ValueError "Either store_id or store_name must be provided.")
        end
      else Raise (ValueError "Either store_id or store_name must be provided.")
  end.

End Db.

(** ** archive/db.py: the layout query this repository used before *)

Module Archive.
Import Db.

Definition first_location (d : Database) (store_name : string) : option nat :=
  let ids :=
    s ← stores d;
    sl ← store_locations d;
    if decide (s_store_id s = sl_store_id sl ∧ s_name s = store_name)
    then [sl_location_id sl] else []
  in head (PyStr.sort_by Nat.leb ids).

Definition location_rows (d : Database) (location_id : nat)
  : list (nat * (string * string)) :=
  sz ← store_zones d;
  zc ← zone_categories d;
  if decide (sz_zone_id sz = zc_zone_id zc ∧ sz_location_id sz = location_id)
  then [(sz_zone_order sz, (sz_zone_name sz, zc_category zc))] else [].

Definition postal_rows (d : Database) (store_name postal_code : string)
  : list (nat * (string * string)) :=
  s ← stores d;
  sl ← store_locations d;
  sz ← store_zones d;
  zc ← zone_categories d;
  if decide (s_store_id s = sl_store_id sl
             ∧ sl_location_id sl = sz_location_id sz
             ∧ sz_zone_id sz = zc_zone_id zc
             ∧ s_name s = store_name
             ∧ sl_postal_code sl = Some postal_code)
  then [(sz_zone_order sz, (sz_zone_name sz, zc_category zc))] else [].

Definition get_store_layout (d : Database) (store_name : string)
    (postal_code : option string) : list (string * list string) :=
  if PyStr.truthy_opt postal_code then
    group_zones (order_by_zone_order
                   (postal_rows d store_name (default "" postal_code)))
  else
    match first_location d store_name with
    | None => []
    | Some location_id =>
        group_zones (order_by_zone_order (location_rows d location_id))
    end.

End Archive.

(** ** backend/app/organize.py *)

Module Organize.
Import Db.

Definition GENERIC_LAYOUT : list (string * list string) :=
  [ ("Produce", ["Produce"]);
    ("Meat & Seafood", ["Meat"; "Seafood"; "Deli"]);
    ("Bakery", ["Bakery"]);
    ("Dairy", ["Dairy"]);
    ("Frozen", ["Frozen"]);
    ("Pantry", ["Pantry"]);
    ("Snacks", ["Snacks"]);
    ("Beverages", ["Beverages"]);
    ("Household", ["Household"]);
    ("Personal Care", ["Personal Care"]) ].

Definition HEURISTIC_BUCKETS : list (string * list string) :=
  [ ("Meat", ["chicken"; "beef"; "pork"; "steak"; "bacon"; "sausage"; "turkey"; "ham"; "lamb"]);
    ("Seafood", ["salmon"; "shrimp"; "tuna"; "cod"; "crab"; "lobster"; "scallop"]);
    ("Produce", ["banana"; "apple"; "spinach"; "lettuce"; "tomato"; "onion"; "potato"; "carrot"; "berry"; "fruit"; "vegetable"]);
    ("Dairy", ["milk"; "yogurt"; "cheese"; "butter"; "cream"; "eggs"; "egg"]);
    ("Bakery", ["bread"; "bagel"; "sourdough"; "bun"; "roll"; "croissant"]);
    ("Frozen", ["ice cream"; "popsicle"; "frozen"; "ice-cream"; "icecream"]);
    ("Pantry", ["rice"; "pasta"; "canned"; "beans"; "sauce"; "oil"; "vinegar"; "flour"; "sugar"; "spice"; "cereal"]);
    ("Snacks", ["chip"; "chips"; "cracker"; "cookie"; "chocolate"; "popcorn"; "granola"]);
    ("Beverages", ["juice"; "soda"; "cola"; "water"; "beer"; "wine"; "coffee"; "tea"]);
    ("Household", ["detergent"; "paper towel"; "toilet paper"; "trash bag"; "cleaner"; "bleach"; "dish soap"]);
    ("Personal Care", ["shampoo"; "soap"; "toothpaste"; "deodorant"; "razor"; "lotion"; "conditioner"]) ].

Definition ALLOWED_CATEGORIES : list string :=
  [ "Produce"; "Meat"; "Seafood"; "Dairy"; "Bakery"; "Frozen"; "Pantry";
    "Snacks"; "Beverages"; "Household"; "Personal Care"; "Misc" ].

(** Values [json.loads] can return.  Numbers are kept as integers: the code
    only looks at their truthiness and at the fact that they are not
    strings. *)
Inductive pyval : Type :=
| PNone
| PBool (b : bool)
| PInt (z : Z)
| PStr (s : string)
| PList (l : list pyval)
| PDict (items : list (string * pyval)).

Definition truthy (v : pyval) : bool :=
  match v with
  | PNone => false
  | PBool b => b
  | PInt z => negb (Z.eqb z 0)
  | PStr s => PyStr.truthy s
  | PList l => match l with [] => false | _ => true end
  | PDict items => match items with [] => false | _ => true end
  end.

Fixpoint assoc_get (k : string) (items : list (string * pyval)) : pyval :=
  match items with
  | [] => PNone
  | (k', v) :: items' => if decide (k = k') then v else assoc_get k items'
  end.

(** [data_dict.get(k)]: only a dict has the method. *)
Definition py_get (v : pyval) (k : string) : result pyval :=
  match v with
  | PDict items => Ok (assoc_get k items)
  | _ => Raise AttributeError
  end.

(** The three model tiers of the escalation chain. *)
Inductive Tier : Type := Primary | Alternative | Upgrade.

Global Instance Tier_eq_dec : EqDecision Tier.
Proof. solve_decision. Defined.

Record LlmCall : Type := mkCall {
  call_tier : Tier;
  call_model : string;
  call_prompt : string
}.

(** What one use of the [google.genai] client can do. *)
Inductive GenaiOutcome : Type :=
| ImportFailed
| Responded (text : string)
| RaisedClientError
| RaisedOther.

Inductive Status : Type := OK | NO_CLIENT | RESOURCE_EXHAUSTED | EXCEPTION.

Global Instance Status_eq_dec : EqDecision Status.
Proof. solve_decision. Defined.

(** The process environment and the two library boundaries.  [genai] sees
    the calls made before the present one, so successive calls with the same
    model and prompt may answer differently. *)
Record Env : Type := mkEnv {
  GEMENI_FREE_API : option string;
  GEMENI_PRIMARY_MODEL : option string;
  GEMENI_ALTERNATIVE_MODEL : option string;
  GEMENI_UPGRADE_MODEL : option string;
  genai : list LlmCall -> string -> string -> GenaiOutcome;
  json_loads : string -> option pyval
}.

Record State : Type := mkState {
  db : Database;
  llm_log : list LlmCall
}.

(** State and exceptions. *)
Definition M (A : Type) : Type := State -> result A * State.

Definition ret {A} (a : A) : M A := fun st => (Ok a, st).
Definition raise {A} (e : exn) : M A := fun st => (Raise e, st).
Definition bind {A B} (m : M A) (k : A -> M B) : M B :=
  fun st => match m st with
            | (Ok a, st') => k a st'
            | (Raise e, st') => (Raise e, st')
            end.
Definition lift {A} (r : result A) : M A := fun st => (r, st).

Global Instance M_ret : MRet M := @ret.
Global Instance M_bind : MBind M := fun A B k m => bind m k.

(** [re.search(r'```json\n(.*?)```', response_text, re.DOTALL)], group 1:
    the text between the first opening fence and the first closing fence
    after it. *)
Definition fence_open : string := "```json" ++ PyStr.nl.
Definition fence_close : string := "```".

Definition search_fence (response_text : string) : option string :=
  match PyStr.find_after fence_open response_text with
  | Some rest => PyStr.take_until fence_close rest
  | None => None
  end.

Definition _parse_dict_from_ai_response (e : Env) (response_text : string) : pyval :=
  match search_fence response_text with
  | Some group1 =>
      match json_loads e (PyStr.strip group1) with
      | Some data_dict => data_dict
      | None => PNone
      end
  | None => PNone
  end.

(** [name.strip().title()]; anything but a [str] has no [strip]. *)
Definition _prettify_name (name : string) : string :=
  PyStr.title (PyStr.strip name).

Definition _prettify_val (v : pyval) : result string :=
  match v with
  | PStr s => Ok (_prettify_name s)
  | _ => Raise AttributeError
  end.

Definition _call_llm (e : Env) (tier : Tier) (prompt model : string)
  : M (Status * string) :=
  fun st =>
    let st' := mkState (db st) (llm_log st ++ [mkCall tier model prompt]) in
    match genai e (llm_log st) model prompt with
    | ImportFailed => (Ok (NO_CLIENT, ""), st')
    | Responded text => (Ok (OK, text), st')
    | RaisedClientError => (Ok (RESOURCE_EXHAUSTED, ""), st')
    | RaisedOther => (Ok (EXCEPTION, ""), st')
    end.

Definition make_prompt (item : string) : string :=
  "You are a grocery categorization assistant. " ++
  "Classify the following grocery item into ONE of these categories: " ++
  "Produce, Meat, Seafood, Dairy, Bakery, Frozen, Pantry, Snacks, " ++
  "Beverages, Household, Personal Care, Misc." ++ PyStr.nl ++ PyStr.nl ++
  "Return ONLY a JSON object with the exact schema:" ++ PyStr.nl ++
  "{" ++ PyStr.nl ++ "  " ++ PyStr.dq ++ "category" ++ PyStr.dq ++ ": " ++
  PyStr.dq ++ "<category>" ++ PyStr.dq ++ "," ++ PyStr.nl ++ "  " ++
  PyStr.dq ++ "normalized_name" ++ PyStr.dq ++ ": " ++ PyStr.dq ++ "<name>" ++
  PyStr.dq ++ PyStr.nl ++ "}" ++ PyStr.nl ++ PyStr.nl ++
  "Rules: do NOT invent items; do NOT include brand names unless essential; " ++
  "if uncertain choose " ++ PyStr.dq ++ "Misc" ++ PyStr.dq ++
  "; normalized_name must be 1-3 words." ++ PyStr.nl ++ PyStr.nl ++
  "Item: " ++ PyStr.dq ++ item ++ PyStr.dq ++ PyStr.nl ++ PyStr.nl ++
  "Respond with JSON only.".

(** [' '.join(norm.split()[:3])] *)
Definition first_three (norm : string) : string :=
  PyStr.join " " (take 3 (PyStr.split norm)).

(** [sorted(keywords, key=len, reverse=True)] *)
Definition longest_first (keywords : list string) : list string :=
  PyStr.sort_by (fun k1 k2 => Nat.leb (String.length k2) (String.length k1)) keywords.

(** The keyword loops at the end of [ai_fallback_classify]. *)
Fixpoint first_keyword (lowered : string) (kws : list string) : option string :=
  match kws with
  | [] => None
  | kw :: kws' => if PyStr.contains kw lowered then Some kw else first_keyword lowered kws'
  end.

Fixpoint heuristic_bucket (lowered : string) (buckets : list (string * list string))
  : option (string * string) :=
  match buckets with
  | [] => None
  | (cat, keywords) :: buckets' =>
      match first_keyword lowered (longest_first keywords) with
      | Some kw => Some (cat, kw)
      | None => heuristic_bucket lowered buckets'
      end
  end.

Definition heuristic (item : string) : string * string :=
  let lowered := PyStr.lower (PyStr.strip item) in
  match heuristic_bucket lowered HEURISTIC_BUCKETS with
  | Some (cat, _) => (cat, first_three (_prettify_name item))
  | None => ("Misc", first_three (_prettify_name item))
  end.

Definition read_fields (data_dict : pyval) : result (string * string) :=
  match py_get data_dict "category" with
  | Raise e => Raise e
  | Ok c =>
      match _prettify_val c with
      | Raise e => Raise e
      | Ok cat =>
          match py_get data_dict "normalized_name" with
          | Raise e => Raise e
          | Ok n =>
              match _prettify_val n with
              | Raise e => Raise e
              | Ok norm => Ok (cat, norm)
              end
          end
      end
  end.

(** The primary call and, when it reports [RESOURCE_EXHAUSTED], the call to
    the alternative model that replaces its answer. *)
Definition first_response (e : Env) (prompt : string) : M (Status * string) :=
  let primary_model := default "gemini-2.5-flash" (GEMENI_PRIMARY_MODEL e) in
  let alternative_model := default "gemini-2.5-flash-lite" (GEMENI_ALTERNATIVE_MODEL e) in
  '(status, response_text) ← _call_llm e Primary prompt primary_model ;
  if decide (status = RESOURCE_EXHAUSTED)
  then _call_llm e Alternative prompt alternative_model
  else ret (status, response_text).

Definition ai_fallback_classify (e : Env) (item : string) : M (string * string) :=
  let api_key := GEMENI_FREE_API e in
  let upgrade_model := default "gemini-2.5-pro" (GEMENI_UPGRADE_MODEL e) in
  if PyStr.truthy_opt api_key then
    let prompt := make_prompt item in
    '(status, response_text) ← first_response e prompt ;
    let data_dict :=
      if decide (status = OK) then _parse_dict_from_ai_response e response_text
      else PNone in
    if truthy data_dict then
      '(cat, norm) ← lift (read_fields data_dict) ;
      '(cat, norm) ←
         (if decide (PyStr.slice_to 4 cat = "Misc") then
            '(status, response_text) ← _call_llm e Upgrade prompt upgrade_model ;
            if decide (status = OK) then
              let data_dict := _parse_dict_from_ai_response e response_text in
              if truthy data_dict then lift (read_fields data_dict)
              else ret (cat, norm)
            else ret (cat, norm)
          else ret (cat, norm)) ;
      if decide (cat ∈ ALLOWED_CATEGORIES)
      then ret (cat, first_three norm)
      else ret (heuristic item)
    else ret (heuristic item)
  else ret (heuristic item).

(** The [try]/[except] block of [classify_item_with_cache], run on a miss. *)
Definition classify_uncached (e : Env) (item item_key : string)
  : State -> (string * string * string) * State :=
  fun st =>
    match ai_fallback_classify e item st with
    | (Ok (category, norm), st') =>
        let st'' :=
          if decide (category = "Misc") then st'
          else mkState (cache_item (db st') item_key category norm "ai") (llm_log st') in
        ((category, norm, "ai"), st'')
    | (Raise _, st') =>
        (("Misc", _prettify_name item_key, "fallback"), st')
    end.

Definition classify_item_with_cache (e : Env) (item : string)
  : State -> (string * string * string) * State :=
  fun st =>
    let item_key := PyStr.lower (PyStr.strip item) in
    match get_cached_item (db st) item_key with
    | Some cached => ((category cached, normalized_name cached, source cached), st)
    | None => classify_uncached e item item_key st
    end.

Record Group : Type := mkGroup {
  zone : string;
  items : list string
}.

(** The [seen]/[layout] loop. *)
Definition flatten_step (acc : gset string * list string) (c : string)
  : gset string * list string :=
  if decide (c ∈ acc.1) then acc else ({[c]} ∪ acc.1, acc.2 ++ [c]).

Definition flatten_layout (db_layout : list (string * list string)) : list string :=
  (fold_left (fun acc '(_zone, cats) => fold_left flatten_step cats acc)
             db_layout (∅, [])).2.

(** The classification loop: [grouped[cat].append(norm)]. *)
Fixpoint group_items (e : Env) (its : list string)
    (grouped : list (string * list string)) (st : State)
  : list (string * list string) * State :=
  match its with
  | [] => (grouped, st)
  | item :: its' =>
      let '((cat, norm, _source), st') := classify_item_with_cache e item st in
      group_items e its' (od_append cat norm grouped) st'
  end.

Definition emit (grouped : list (string * list string)) (cat : string) : Group :=
  mkGroup cat (default [] (od_get cat grouped)).

Definition build_output (layout : list string) (grouped : list (string * list string))
  : list Group :=
  let in_layout := filter (fun cat => is_Some (od_get cat grouped)) layout in
  let remaining := filter (fun c => c ∉ layout) (od_keys grouped) in
  (emit grouped <$> in_layout) ++ (emit grouped <$> PyStr.sort_by String.leb remaining).

(** The body of [order_items] once the store layout is known. *)
Definition order_with_layout (e : Env) (db_layout : list (string * list string))
    (its : list string) : State -> list Group * State :=
  fun st =>
    let layout := flatten_layout db_layout in
    let '(grouped, st') := group_items e its [] st in
    (build_output layout grouped, st').

Definition order_items (e : Env) (store_id : option nat) (its : list string)
  : M (list Group) :=
  fun st =>
    let r_layout :=
      if truthy_id store_id then get_store_layout (db st) store_id None None
      else Ok GENERIC_LAYOUT in
    match r_layout with
    | Raise ex => (Raise ex, st)
    | Ok db_layout =>
        let '(output, st') := order_with_layout e db_layout its st in
        (Ok output, st')
    end.

End Organize.

(** ** Concrete data for the examples *)

Module Sample.
Import Db Organize.

(** [json.loads] on the fragment the prompt asks for: one object whose keys
    and values are string literals without escapes.  Every answer used below
    is either in this fragment or is not JSON at all; on other texts the
    function gives [None]. *)
Definition json_ws (c : ascii) : bool :=
  let n := PyStr.code c in ((n =? 32) || (n =? 9) || (n =? 10) || (n =? 13))%N.

Fixpoint skip_ws (s : string) : string :=
  match s with
  | String c s' => if json_ws c then skip_ws s' else s
  | EmptyString => EmptyString
  end.

(** The characters up to the closing quote, and the text after it. *)
Fixpoint scan_string (s : string) : option (string * string) :=
  match s with
  | EmptyString => None
  | String c s' =>
      if (PyStr.code c =? 34)%N then Some (EmptyString, s')
      else if ((PyStr.code c =? 92) || (PyStr.code c <? 32))%N then None
      else match scan_string s' with
           | Some (v, rest) => Some (String c v, rest)
           | None => None
           end
  end.

Definition string_literal (s : string) : option (string * string) :=
  match skip_ws s with
  | String c s' => if (PyStr.code c =? 34)%N then scan_string s' else None
  | EmptyString => None
  end.

Definition expect (c : N) (s : string) : option string :=
  match skip_ws s with
  | String c' s' => if (PyStr.code c' =? c)%N then Some s' else None
  | EmptyString => None
  end.

(** A later member replaces an earlier one with the same key. *)
Fixpoint dict_set (k : string) (v : pyval) (d : list (string * pyval))
  : list (string * pyval) :=
  match d with
  | [] => [(k, v)]
  | (k', v') :: d' => if decide (k = k') then (k', v) :: d' else (k', v') :: dict_set k v d'
  end.

Fixpoint members (fuel : nat) (s : string) (acc : list (string * pyval))
  : option (list (string * pyval)) :=
  match fuel with
  | O => None
  | S fuel' =>
      '(k, s1) ← string_literal s;
      s2 ← expect 58 s1;
      '(v, s3) ← string_literal s2;
      let acc' := dict_set k (PStr v) acc in
      match expect 44 s3 with
      | Some s4 => members fuel' s4 acc'
      | None =>
          s4 ← expect 125 s3;
          if decide (skip_ws s4 = EmptyString) then Some acc' else None
      end
  end.

Definition flat_json_loads (s : string) : option pyval :=
  s1 ← expect 123 s;
  match expect 125 s1 with
  | Some s2 => if decide (skip_ws s2 = EmptyString) then Some (PDict []) else None
  | None => PDict <$> members (String.length s) s1 []
  end.

(** A fenced answer with the given fields. *)
Definition fenced (body : string) : string :=
  "Here you go: ```json" ++ PyStr.nl ++ body ++ PyStr.nl ++ "``` done".

Definition payload (cat norm : string) : string :=
  "{" ++ PyStr.dq ++ "category" ++ PyStr.dq ++ ": " ++ PyStr.dq ++ cat ++ PyStr.dq ++
  ", " ++ PyStr.dq ++ "normalized_name" ++ PyStr.dq ++ ": " ++ PyStr.dq ++ norm ++
  PyStr.dq ++ "}".

Definition payload_no_name (cat : string) : string :=
  "{" ++ PyStr.dq ++ "category" ++ PyStr.dq ++ ": " ++ PyStr.dq ++ cat ++ PyStr.dq ++ "}".

(** An environment whose service answers by the number of calls made so far. *)
Definition scripted (api_key : option string) (answers : list GenaiOutcome) : Env :=
  {| GEMENI_FREE_API := api_key;
     GEMENI_PRIMARY_MODEL := None;
     GEMENI_ALTERNATIVE_MODEL := None;
     GEMENI_UPGRADE_MODEL := None;
     genai := fun history _ _ => default RaisedOther (answers !! length history);
     json_loads := flat_json_loads |}.

Definition no_credential : Env := scripted None [].

Definition empty_db : Database :=
  {| item_cache := ∅; stores := []; store_locations := [];
     store_zones := []; zone_categories := [] |}.

Definition fresh : State := mkState empty_db [].

(** One store with two registered locations and different zones. *)
Definition two_locations : Database :=
  {| item_cache := ∅;
     stores := [mkStore 1 "Wegmans" (Some "Wegmans")];
     store_locations :=
       [ mkLocation 1 1 (Some "Parsippany") (Some "NJ") (Some "07054");
         mkLocation 2 1 (Some "West Caldwell") (Some "NJ") (Some "07006") ];
     store_zones :=
       [ mkZone 1 1 "Produce" 1; mkZone 2 1 "Dairy" 2;
         mkZone 3 2 "Bakery" 1; mkZone 4 2 "Frozen" 2 ];
     zone_categories :=
       [ mkZoneCategory 1 "Produce"; mkZoneCategory 2 "Dairy";
         mkZoneCategory 3 "Bakery"; mkZoneCategory 4 "Frozen" ] |}.

(** A record pinned by an operator. *)
Definition pinned : State :=
  mkState (override_item empty_db "Ice Cream " "Frozen" "Ice Cream") [].

End Sample.

(** ** Vocabulary of the statements *)

(** The spec's flattening: walk the categories in order and keep each one
    only the first time it is seen ([done] holds those seen so far). *)
Fixpoint first_occurrences (done : list string) (cats : list string) : list string :=
  match cats with
  | [] => []
  | c :: cats' =>
      if decide (c ∈ done) then first_occurrences done cats'
      else c :: first_occurrences (done ++ [c]) cats'
  end.

(** Lexicographic order on category labels, as Python compares [str]. *)
Definition label_le (a b : string) : Prop := String.leb a b = true.

(** ** Runs of the automated paths

    One step is anything the automated side can do to the state: a
    resolution, a whole [order_items] request, or a direct [cache_item]
    write with any arguments. *)

Inductive automated_step (e : Organize.Env) : Organize.State -> Organize.State -> Prop :=
| step_resolve item st :
    automated_step e st (Organize.classify_item_with_cache e item st).2
| step_order store_id its st :
    automated_step e st (Organize.order_items e store_id its st).2
| step_cache_item item category normalized_name source st :
    automated_step e st
      (Organize.mkState
         (Db.cache_item (Organize.db st) item category normalized_name source)
         (Organize.llm_log st)).

(** ** backend/app/db.py: store details and layout registration *)

Module DbAdmin.
Import Db.

(** The row returned by [get_store_details]. *)
Record StoreDetails : Type := mkStoreDetails {
  sd_store_id : nat;
  sd_name : string;
  sd_chain : option string;
  sd_postal_code : option string;
  sd_location_id : nat
}.

Definition details_of (s : StoreRow) (sl : LocationRow) : StoreDetails :=
  mkStoreDetails (s_store_id s) (s_name s) (s_chain s)
                 (sl_postal_code sl) (sl_location_id sl).

(** [LIMIT 1] without [ORDER BY]: one of the matching rows, here the first
    of the join. *)
Definition get_store_details (d : Database) (store_name : string)
    (postal_code : option string) : result StoreDetails :=
  let rows :=
    if PyStr.truthy_opt postal_code then
      s ← stores d;
      sl ← store_locations d;
      if decide (s_store_id s = sl_store_id sl ∧ s_name s = store_name
                 ∧ sl_postal_code sl = postal_code)
      then [details_of s sl] else []
    else
      s ← stores d;
      sl ← store_locations d;
      if decide (s_store_id s = sl_store_id sl ∧ s_name s = store_name)
      then [details_of s sl] else []
  in
  match rows with
  | row :: _ => Ok row
  | [] => Raise (not_found store_name postal_code)
  end.

(** [cur.fetchone()[0]] raises [TypeError] when no row matches. *)
Inductive outcome (A : Type) : Type :=
| Done (a : A)
| TypeError.
Arguments Done {A} a.
Arguments TypeError {A}.

(** [INTEGER PRIMARY KEY AUTOINCREMENT]: the new id is larger than every id
    in the table.  The model takes the least such id; SQLite may skip
    some.  The statements use only that the id is new. *)
Definition next_id (ids : list nat) : nat := S (max_list ids).

Definition set_stores (d : Database) (l : list StoreRow) : Database :=
  {| item_cache := item_cache d; stores := l;
     store_locations := store_locations d;
     store_zones := store_zones d; zone_categories := zone_categories d |}.

Definition set_store_locations (d : Database) (l : list LocationRow) : Database :=
  {| item_cache := item_cache d; stores := stores d;
     store_locations := l;
     store_zones := store_zones d; zone_categories := zone_categories d |}.

Definition set_store_zones (d : Database) (l : list ZoneRow) : Database :=
  {| item_cache := item_cache d; stores := stores d;
     store_locations := store_locations d;
     store_zones := l; zone_categories := zone_categories d |}.

Definition set_zone_categories (d : Database) (l : list ZoneCategoryRow) : Database :=
  {| item_cache := item_cache d; stores := stores d;
     store_locations := store_locations d;
     store_zones := store_zones d; zone_categories := l |}.

(** [INSERT OR IGNORE INTO stores]: ignored when [UNIQUE(name)] would be
    violated; then the id of the store with that name. *)
Definition get_or_create_store (d : Database) (name : string)
    (chain : option string) : outcome (nat * Database) :=
  let d1 :=
    if decide (Exists (fun s => s_name s = name) (stores d)) then d
    else set_stores d
           (stores d ++ [mkStore (next_id (s_store_id <$> stores d)) name chain]) in
  match (s ← stores d1; if decide (s_name s = name) then [s_store_id s] else []) with
  | store_id :: _ => Done (store_id, d1)
  | [] => TypeError
  end.

(** [UNIQUE(store_id, postal_code)] never fires on a NULL postal code, and
    [postal_code = ?] is never true for a NULL parameter. *)
Definition get_or_create_location (d : Database) (store_id : nat)
    (city state postal_code : option string) : outcome (nat * Database) :=
  let d1 :=
    if decide (Exists (fun sl => sl_store_id sl = store_id
                                 ∧ sl_postal_code sl = postal_code
                                 ∧ postal_code ≠ None) (store_locations d))
    then d
    else set_store_locations d
           (store_locations d ++
            [mkLocation (next_id (sl_location_id <$> store_locations d))
                        store_id city state postal_code]) in
  match (sl ← store_locations d1;
         if decide (sl_store_id sl = store_id ∧ sl_postal_code sl = postal_code
                    ∧ postal_code ≠ None)
         then [sl_location_id sl] else []) with
  | location_id :: _ => Done (location_id, d1)
  | [] => TypeError
  end.

(** The inner loop of [insert_zones]: [INSERT OR IGNORE INTO
    zone_categories], ignored on the primary key (zone_id, category). *)
Fixpoint insert_categories (d : Database) (zone_id : nat)
    (categories : list string) : Database :=
  match categories with
  | [] => d
  | category :: categories' =>
      let d1 :=
        if decide (Exists (fun zc => zc_zone_id zc = zone_id
                                     ∧ zc_category zc = category)
                          (zone_categories d))
        then d
        else set_zone_categories d
               (zone_categories d ++ [mkZoneCategory zone_id category]) in
      insert_categories d1 zone_id categories'
  end.

(** [zone_ids[zone_name] = zone_id] on an insertion-ordered dict. *)
Fixpoint ids_set (k : string) (v : nat) (m : list (string * nat))
  : list (string * nat) :=
  match m with
  | [] => [(k, v)]
  | (k', v') :: m' =>
      if decide (k = k') then (k', v) :: m' else (k', v') :: ids_set k v m'
  end.

(** The loop of [insert_zones] from position [order] on: [INSERT OR IGNORE
    INTO store_zones] is ignored on [UNIQUE(location_id, zone_order)]; the
    zone id is then read back by name (the first such row of the table). *)
Fixpoint insert_zones_from (order : nat) (d : Database) (location_id : nat)
    (zones : list (string * list string)) (zone_ids : list (string * nat))
  : outcome (list (string * nat) * Database) :=
  match zones with
  | [] => Done (zone_ids, d)
  | (zone_name, categories) :: zones' =>
      let d1 :=
        if decide (Exists (fun sz => sz_location_id sz = location_id
                                     ∧ sz_zone_order sz = order) (store_zones d))
        then d
        else set_store_zones d
               (store_zones d ++
                [mkZone (next_id (sz_zone_id <$> store_zones d))
                        location_id zone_name order]) in
      match (sz ← store_zones d1;
             if decide (sz_location_id sz = location_id ∧ sz_zone_name sz = zone_name)
             then [sz_zone_id sz] else []) with
      | [] => TypeError
      | zone_id :: _ =>
          insert_zones_from (S order) (insert_categories d1 zone_id categories)
                            location_id zones' (ids_set zone_name zone_id zone_ids)
      end
  end.

(** [enumerate(zones, start=1)] *)
Definition insert_zones (d : Database) (location_id : nat)
    (zones : list (string * list string))
  : outcome (list (string * nat) * Database) :=
  insert_zones_from 1 d location_id zones [].

(** The connection is committed only at the end: when a step raises, the
    database file is as it was. *)
Definition add_store_layout (d : Database) (store_name : string)
    (chain city state postal_code : option string)
    (zones : list (string * list string)) : outcome Database :=
  match get_or_create_store d store_name chain with
  | TypeError => TypeError
  | Done (store_id, d1) =>
      match get_or_create_location d1 store_id city state postal_code with
      | TypeError => TypeError
      | Done (location_id, d2) =>
          match insert_zones d2 location_id zones with
          | TypeError => TypeError
          | Done (_, d3) => Done d3
          end
      end
  end.

End DbAdmin.

(** ** backend/app/organize.py: the command line's item list *)

Module Cli.

(** [s.split(sep)] for a one-character separator: empty fields are kept. *)
Fixpoint split_on_go (sep : ascii) (cur : string) (s : string) : list string :=
  match s with
  | EmptyString => [cur]
  | String c s' =>
      if decide (c = sep) then cur :: split_on_go sep EmptyString s'
      else split_on_go sep (String.append cur (String c EmptyString)) s'
  end.

Definition split_on (sep : ascii) (s : string) : list string :=
  split_on_go sep EmptyString s.

Definition comma : ascii := ","%char.

(** [[p.strip() for p in args.list.split(',') if p.strip()]] *)
Definition parse_list (l : string) : list string :=
  PyStr.strip <$> filter (fun p => PyStr.truthy (PyStr.strip p) = true)
                         (split_on comma l).

(** The items of a run: [--list] when given and non-empty, else the
    positional items as they are; [None] is [parser.error]. *)
Definition parsed_items (list_arg : option string) (pos_items : list string)
  : option (list string) :=
  if PyStr.truthy_opt list_arg then Some (parse_list (default "" list_arg))
  else match pos_items with
       | [] => None
       | _ => Some pos_items
       end.

End Cli.

(** ** utils/backfill_data.py *)

Module Backfill.
Import Db.

(** A row of [csv.DictReader]: each field name of the header with the
    row's value, or with [None] when the row is too short. *)
Definition CsvRow : Type := list (string * option string).

Fixpoint row_lookup (k : string) (row : CsvRow) : option (option string) :=
  match row with
  | [] => None
  | (k', v) :: row' => if decide (k = k') then Some v else row_lookup k row'
  end.

(** [row.get(k, default).strip()]: [None] has no [strip]. *)
Definition get_strip (row : CsvRow) (k default : string) : result string :=
  match row_lookup k row with
  | None => Ok (PyStr.strip default)
  | Some (Some v) => Ok (PyStr.strip v)
  | Some None => Raise AttributeError
  end.

(** [import_csv] on the rows read from the file: the count of rows written,
    or the exception, with the database as the writes made so far left it
    ([cache_item] commits each write). *)
Fixpoint import_rows (rows : list CsvRow) (count : nat) (d : Database)
  : result nat * Database :=
  match rows with
  | [] => (Ok count, d)
  | row :: rows' =>
      match get_strip row "item" "" with
      | Raise e => (Raise e, d)
      | Ok item =>
          if negb (PyStr.truthy item) then import_rows rows' count d
          else
            match get_strip row "category" "" with
            | Raise e => (Raise e, d)
            | Ok category =>
                match get_strip row "normalized_name" "" with
                | Raise e => (Raise e, d)
                | Ok normalized_name =>
                    match get_strip row "source" "rules" with
                    | Raise e => (Raise e, d)
                    | Ok source =>
                        import_rows rows' (S count)
                          (cache_item d item category normalized_name source)
                    end
                end
            end
      end
  end.

Definition import_csv (rows : list CsvRow) (d : Database) : result nat * Database :=
  import_rows rows 0 d.

End Backfill.

(** The resolver run over a list of items, keeping every triple. *)
Fixpoint classify_all (e : Organize.Env) (its : list string) (st : Organize.State)
  : list (string * string * string) * Organize.State :=
  match its with
  | [] => ([], st)
  | item :: its' =>
      let '(r, st1) := Organize.classify_item_with_cache e item st in
      let '(rs, st2) := classify_all e its' st1 in
      (r :: rs, st2)
  end.

(** The names of the triples of category [c], in order. *)
Definition names_of (c : string) (rs : list (string * string * string)) : list string :=
  (fun r => r.1.2) <$> filter (fun r => r.1.1 = c) rs.

(** Tables whose foreign keys point at existing rows. *)
Definition references_ok (d : Db.Database) : Prop :=
  (forall sl, sl ∈ Db.store_locations d ->
     Db.sl_store_id sl ∈ Db.s_store_id <$> Db.stores d) /\
  (forall sz, sz ∈ Db.store_zones d ->
     Db.sz_location_id sz ∈ Db.sl_location_id <$> Db.store_locations d) /\
  (forall zc, zc ∈ Db.zone_categories d ->
     Db.zc_zone_id zc ∈ Db.sz_zone_id <$> Db.store_zones d).

(** Every character of [s] satisfies [p]. *)
Fixpoint all_chars (p : ascii -> bool) (s : string) : bool :=
  match s with
  | EmptyString => true
  | String c s' => p c && all_chars p s'
  end.

(** Every character of [s] is an ASCII character.  On such strings
    [PyStr.lower], [PyStr.title] and [PyStr.strip] are Python's [str.lower],
    [str.title] and [str.strip]; beyond ASCII Python folds more letters. *)
Definition is_ascii (s : string) : bool :=
  all_chars (fun c => (PyStr.code c <? 128)%N) s.

(** The orders in which the database may return the rows of a layout query:
    [ORDER BY sz.zone_order ASC] puts rows of smaller [zone_order] first and
    leaves open the order of rows of equal [zone_order]. *)
Definition query_order (rows answer : list (nat * (string * string))) : Prop :=
  answer ≡ₚ rows /\ StronglySorted (fun r1 r2 => r1.1 <= r2.1) answer.

(** Two layouts with the same zones in the same order, the categories of
    each zone being the same up to their order. *)
Definition same_zones (layout1 layout2 : list (string * list string)) : Prop :=
  Forall2 (fun z1 z2 => z1.1 = z2.1 /\ z1.2 ≡ₚ z2.2) layout1 layout2.

(** A word: not empty and free of whitespace. *)
Definition is_word (w : string) : Prop :=
  w <> EmptyString /\ all_chars (fun c => negb (PyStr.is_space c)) w = true.

(** A list item as the command line wants it: not empty, trimmed and
    without a comma. *)
Definition is_list_item (p : string) : Prop :=
  p <> EmptyString /\ PyStr.strip p = p /\
  all_chars (fun c => negb (bool_decide (c = Cli.comma))) p = true.

(** What the state can be after one step of the automated side: the
    layout tables as before, the cache and the call log extended. *)
Definition extends (st st' : Organize.State) : Prop :=
  Db.stores (Organize.db st') = Db.stores (Organize.db st) /\
  Db.store_locations (Organize.db st') = Db.store_locations (Organize.db st) /\
  Db.store_zones (Organize.db st') = Db.store_zones (Organize.db st) /\
  Db.zone_categories (Organize.db st') = Db.zone_categories (Organize.db st) /\
  Db.item_cache (Organize.db st) ⊆ Db.item_cache (Organize.db st') /\
  Organize.llm_log st `prefix_of` Organize.llm_log st'.

(** A CSV row that [import_csv] writes: its item is not blank. *)
Definition importable (row : Backfill.CsvRow) : bool :=
  match Backfill.get_strip row "item" "" with
  | Ok item => PyStr.truthy item
  | Raise _ => false
  end.

(** Registration only appends rows: the cache is the same and each layout
    table of [d] is the beginning of the same table of [d']. *)
Definition grows (d d' : Db.Database) : Prop :=
  Db.item_cache d' = Db.item_cache d /\
  Db.stores d `prefix_of` Db.stores d' /\
  Db.store_locations d `prefix_of` Db.store_locations d' /\
  Db.store_zones d `prefix_of` Db.store_zones d' /\
  Db.zone_categories d `prefix_of` Db.zone_categories d'.

(** The rows the layout query is expected to find for zones registered from
    position [order] on. *)
Fixpoint expected_rows (order : nat) (zones : list (string * list string))
  : list (nat * (string * string)) :=
  match zones with
  | [] => []
  | (zone_name, categories) :: zones' =>
      ((fun c => (order, (zone_name, c))) <$> categories)
      ++ expected_rows (S order) zones'
  end.

(** Data for the examples of the added functions. *)
Module Fixtures.
Import Db.

Definition wegmans_zones : list (string * list string) :=
  [ ("Produce", ["Produce"]);
    ("Meat & Seafood", ["Meat"; "Seafood"; "Deli"]);
    ("Dairy", ["Dairy"]) ].

Definition one_store : Database :=
  {| item_cache := ∅;
     stores := [mkStore 1 "ShopRite" (Some "ShopRite")];
     store_locations := [mkLocation 1 1 None None (Some "07006")];
     store_zones := [mkZone 1 1 "Bakery" 1];
     zone_categories := [mkZoneCategory 1 "Bakery"] |}.

(** A second store that has no location yet. *)
Definition two_stores : Database :=
  {| item_cache := ∅;
     stores := [mkStore 1 "ShopRite" (Some "ShopRite"); mkStore 2 "Costco" None];
     store_locations := [mkLocation 1 1 None None (Some "07006")];
     store_zones := [mkZone 1 1 "Bakery" 1];
     zone_categories := [mkZoneCategory 1 "Bakery"] |}.

Definition csv_rows : list Backfill.CsvRow :=
  [ [("item", Some " Oat Milk "); ("category", Some "Dairy");
     ("normalized_name", Some "Oat Milk"); ("source", Some "rules")];
    [("item", Some "  "); ("category", Some "Pantry");
     ("normalized_name", Some "Nothing"); ("source", Some "rules")];
    [("item", Some "tofu"); ("category", Some "Produce");
     ("normalized_name", Some "Tofu")] ].

End Fixtures.

(** * Properties *)

(** ** Facts about the string operations *)

Section PyStrFacts.
Import PyStr.

Local Ltac by_cases_on_ascii c :=
  destruct c as [[] [] [] [] [] [] [] []]; reflexivity.

Lemma to_lower_idem c : to_lower (to_lower c) = to_lower c.
Proof. by_cases_on_ascii c. Qed.

Lemma is_space_to_lower c : is_space (to_lower c) = is_space c.
Proof. by_cases_on_ascii c. Qed.

Lemma title_char_lower (b : bool) (c : ascii) :
  (if is_lower (to_lower c) || is_upper (to_lower c)
   then Some (if b then to_lower (to_lower c) else to_upper (to_lower c))
   else None) =
  (if is_lower c || is_upper c
   then Some (if b then to_lower c else to_upper c)
   else None).
Proof. destruct b; by_cases_on_ascii c. Qed.

Lemma uncased_to_lower c : is_lower c || is_upper c = false -> to_lower c = c.
Proof. unfold to_lower. destruct (is_upper c); [rewrite orb_true_r; discriminate | done]. Qed.

Lemma lower_idem s : lower (lower s) = lower s.
Proof. induction s as [|c s IH]; simpl; [done|]. by rewrite to_lower_idem, IH. Qed.

Lemma lower_lstrip s : lower (lstrip s) = lstrip (lower s).
Proof.
  induction s as [|c s IH]; simpl; [done|].
  rewrite is_space_to_lower. by destruct (is_space c).
Qed.

Lemma lower_empty s : lower s = EmptyString <-> s = EmptyString.
Proof. destruct s; simpl; split; congruence. Qed.

Lemma lower_rstrip s : lower (rstrip s) = rstrip (lower s).
Proof.
  induction s as [|c s IH]; simpl; [done|].
  rewrite <- IH, is_space_to_lower.
  destruct (rstrip s) as [|c' r]; simpl; [by destruct (is_space c)|done].
Qed.

Lemma lower_strip s : lower (strip s) = strip (lower s).
Proof. unfold strip. by rewrite lower_rstrip, lower_lstrip. Qed.

Lemma lstrip_head s :
  lstrip s = EmptyString \/ exists c s', lstrip s = String c s' /\ is_space c = false.
Proof.
  induction s as [|c s IH]; simpl; [by left|].
  destruct (is_space c) eqn:E; [done|]. right. eauto.
Qed.

Lemma rstrip_head c s :
  is_space c = false -> exists r, rstrip (String c s) = String c r.
Proof. intros E. simpl. rewrite E. destruct (rstrip s); eauto. Qed.

Lemma rstrip_cons c s :
  rstrip (String c s) =
  match rstrip s with
  | EmptyString => if is_space c then EmptyString else String c EmptyString
  | r => String c r
  end.
Proof. reflexivity. Qed.

Lemma rstrip_idem s : rstrip (rstrip s) = rstrip s.
Proof.
  induction s as [|c s IH]; [done|].
  rewrite rstrip_cons. destruct (rstrip s) as [|c' r] eqn:E.
  - destruct (is_space c) eqn:Ec; [done|].
    rewrite rstrip_cons. simpl. by rewrite Ec.
  - rewrite rstrip_cons. by rewrite IH.
Qed.

Lemma lstrip_strip s : lstrip (strip s) = strip s.
Proof.
  unfold strip. destruct (lstrip_head s) as [->|(c & s' & -> & Hc)]; [done|].
  destruct (rstrip_head c s' Hc) as [r ->]. simpl. by rewrite Hc.
Qed.

Lemma strip_idem s : strip (strip s) = strip s.
Proof. unfold strip at 1. rewrite lstrip_strip. unfold strip. apply rstrip_idem. Qed.

Lemma title_go_lower b s : title_go b (lower s) = title_go b s.
Proof.
  revert b. induction s as [|c s IH]; intros b; simpl; [done|].
  pose proof (title_char_lower b c) as H.
  destruct (is_lower (to_lower c) || is_upper (to_lower c)) eqn:E1;
    destruct (is_lower c || is_upper c) eqn:E2; try discriminate.
  - injection H as ->. by rewrite IH.
  - rewrite IH. f_equal. by apply uncased_to_lower.
Qed.

Lemma normalize_item_key_idem item :
  Db.normalize_item_key (Db.normalize_item_key item) = Db.normalize_item_key item.
Proof.
  unfold Db.normalize_item_key.
  by rewrite <- lower_strip, strip_idem, lower_idem.
Qed.

Lemma prettify_key item :
  Organize._prettify_name (lower (strip item)) = Organize._prettify_name item.
Proof.
  unfold Organize._prettify_name.
  unfold title. by rewrite <- lower_strip, strip_idem, title_go_lower.
Qed.

End PyStrFacts.

(** ** The cache *)

Section CacheFacts.
Import Db.

Lemma cache_item_miss d item c n src :
  item_cache d !! normalize_item_key item = None ->
  cache_item d item c n src =
  set_item_cache d (<[normalize_item_key item := mkCacheRow c n src]> (item_cache d)).
Proof. intros H. unfold cache_item. by rewrite H. Qed.

Lemma cache_item_keeps_manual d item c n src key r :
  item_cache d !! key = Some r -> source r = "manual" ->
  item_cache (cache_item d item c n src) !! key = Some r.
Proof.
  intros Hk Hm. unfold cache_item.
  destruct (decide (normalize_item_key item = key)) as [->|Hne].
  - rewrite Hk. by rewrite decide_True.
  - destruct (item_cache d !! normalize_item_key item) as [old|]; simpl.
    + case_decide; [done|]. simpl. by rewrite lookup_insert_ne.
    + by rewrite lookup_insert_ne.
Qed.

Lemma cache_item_tables d item c n src :
  stores (cache_item d item c n src) = stores d /\
  store_locations (cache_item d item c n src) = store_locations d /\
  store_zones (cache_item d item c n src) = store_zones d /\
  zone_categories (cache_item d item c n src) = zone_categories d.
Proof.
  unfold cache_item. destruct (item_cache d !! normalize_item_key item); [case_decide|]; done.
Qed.

(** C10: whatever record the key had, [override_item] leaves the cache with
    exactly the record (trimmed lowercased item, category, normalized_name,
    'manual') at that key; every other key, and the layout tables, are as
    before.  A second override replaces the first. *)
Theorem override_item_unconditional d item c n :
  let key := PyStr.lower (PyStr.strip item) in
  let d' := override_item d item c n in
  get_cached_item d' key = Some (mkCacheRow c n "manual") /\
  (forall k, k <> key -> get_cached_item d' k = get_cached_item d k) /\
  (forall c2 n2,
     get_cached_item (override_item d' item c2 n2) key = Some (mkCacheRow c2 n2 "manual")) /\
  stores d' = stores d /\ store_locations d' = store_locations d /\
  store_zones d' = store_zones d /\ zone_categories d' = zone_categories d.
Proof.
  intros key d'. unfold d', key, get_cached_item, override_item, normalize_item_key. simpl.
  repeat split.
  - apply lookup_insert_eq.
  - intros k Hk. by rewrite lookup_insert_ne.
  - intros c2 n2. apply lookup_insert_eq.
Qed.

End CacheFacts.

(** ** The escalation chain and the resolver *)

Section ResolverFacts.
Import Db Organize.

Local Ltac unfold_M :=
  unfold mbind, M_bind, mret, M_ret, bind, ret, lift, raise in *.

Lemma call_llm_run e tier prompt model st :
  exists status text,
    _call_llm e tier prompt model st =
    (Ok (status, text),
     mkState (db st) (llm_log st ++ [mkCall tier model prompt])) /\
    (status = RESOURCE_EXHAUSTED <-> genai e (llm_log st) model prompt = RaisedClientError) /\
    (status = OK <-> genai e (llm_log st) model prompt = Responded text).
Proof.
  unfold _call_llm. destruct (genai e (llm_log st) model prompt) eqn:E;
    eexists _, _; (split; [reflexivity|]); split; split; congruence.
Qed.

(** The shapes a run of [first_response] can take. *)
Lemma first_response_run e prompt st :
  let pm := default "gemini-2.5-flash" (GEMENI_PRIMARY_MODEL e) in
  let am := default "gemini-2.5-flash-lite" (GEMENI_ALTERNATIVE_MODEL e) in
  exists status text calls,
    first_response e prompt st =
      (Ok (status, text), mkState (db st) (llm_log st ++ calls)) /\
    ((calls = [mkCall Primary pm prompt]
      /\ genai e (llm_log st) pm prompt <> RaisedClientError)
     \/ (calls = [mkCall Primary pm prompt; mkCall Alternative am prompt]
         /\ genai e (llm_log st) pm prompt = RaisedClientError)).
Proof.
  intros pm am. unfold first_response. unfold_M. fold pm am.
  destruct (call_llm_run e Primary prompt pm st) as (s1 & t1 & -> & Hex & _).
  case_decide as Hs.
  - set (st1 := mkState _ _).
    destruct (call_llm_run e Alternative prompt am st1) as (s2 & t2 & -> & _ & _).
    eexists s2, t2, _. split.
    + subst st1. simpl. by rewrite <- app_assoc.
    + right. split; [done|]. by apply Hex.
  - eexists s1, t1, _. split; [done|]. left. split; [done|]. by rewrite <- Hex.
Qed.

Lemma read_fields_raise d ex : read_fields d = Raise ex -> ex = AttributeError.
Proof.
  unfold read_fields, py_get, _prettify_val. intros H.
  destruct d; try (by inversion H).
  destruct (assoc_get "category" items0); try (by inversion H).
  destruct (assoc_get "normalized_name" items0); by inversion H.
Qed.

Local Opaque heuristic first_three make_prompt _parse_dict_from_ai_response.

(** The runs of the chain, case by case. *)
Lemma ai_fallback_run e item st :
  let prompt := make_prompt item in
  let pm := default "gemini-2.5-flash" (GEMENI_PRIMARY_MODEL e) in
  let am := default "gemini-2.5-flash-lite" (GEMENI_ALTERNATIVE_MODEL e) in
  let um := default "gemini-2.5-pro" (GEMENI_UPGRADE_MODEL e) in
  exists r calls,
    ai_fallback_classify e item st = (r, mkState (db st) (llm_log st ++ calls)) /\
    (calls = [] \/ calls = [mkCall Primary pm prompt]
     \/ calls = [mkCall Primary pm prompt; mkCall Alternative am prompt]
     \/ calls = [mkCall Primary pm prompt; mkCall Upgrade um prompt]
     \/ calls = [mkCall Primary pm prompt; mkCall Alternative am prompt;
                 mkCall Upgrade um prompt]) /\
    (mkCall Alternative am prompt ∈ calls ->
       genai e (llm_log st) pm prompt = RaisedClientError) /\
    (mkCall Upgrade um prompt ∈ calls ->
       exists text st1 cat norm,
         first_response e prompt st = (Ok (OK, text), st1) /\
         truthy (_parse_dict_from_ai_response e text) = true /\
         read_fields (_parse_dict_from_ai_response e text) = Ok (cat, norm) /\
         PyStr.slice_to 4 cat = "Misc") /\
    ((exists cat norm, r = Ok (cat, norm)) \/ r = Raise AttributeError).
Proof.
  intros prompt pm am um. unfold ai_fallback_classify. fold prompt um.
  destruct (PyStr.truthy_opt (GEMENI_FREE_API e)) eqn:Hkey.
  2: { exists (Ok (heuristic item)), []. rewrite app_nil_r. destruct st.
       repeat split; eauto; try (intros Hu; by apply elem_of_nil in Hu).
       left. destruct (heuristic item); eauto. }
  destruct (first_response_run e prompt st) as (s & t & calls1 & Hfr & Hshape).
  fold pm am in Hshape.
  assert (Hno_up : mkCall Upgrade um prompt ∉ calls1).
  { destruct Hshape as [[-> _]|[-> _]]; intros Hin; repeat (apply elem_of_cons in Hin as [Hin|Hin]; [discriminate|]); by apply elem_of_nil in Hin. }
  assert (Halt : mkCall Alternative am prompt ∈ calls1 ->
                 genai e (llm_log st) pm prompt = RaisedClientError).
  { destruct Hshape as [[-> _]|[-> ?]]; [|done]. intros Hin. apply list_elem_of_singleton in Hin. discriminate. }
  assert (Hheur : exists cat norm, Ok (heuristic item) = Ok (cat, norm)).
  { destruct (heuristic item); eauto. }
  unfold_M. rewrite Hfr. cbn beta iota.
  destruct (truthy (if decide (s = OK) then _parse_dict_from_ai_response e t else PNone))
    eqn:Htruthy.
  2: { exists (Ok (heuristic item)), calls1. repeat split; eauto.
       - destruct Hshape as [[-> _]|[-> _]]; eauto.
       - intros Hu. by destruct Hno_up. }
  case_decide as Hs; [subst s|discriminate].
  destruct (read_fields (_parse_dict_from_ai_response e t)) as [[cat norm]|ex] eqn:Hrf.
  2: { exists (Raise ex), calls1. repeat split; eauto.
       - destruct Hshape as [[-> _]|[-> _]]; eauto.
       - intros Hu. by destruct Hno_up.
       - right. f_equal. by eapply read_fields_raise. }
  cbn beta iota.
  case_decide as Hmisc.
  2: { cbn beta iota. case_decide.
       - exists (Ok (cat, first_three norm)), calls1. repeat split; eauto.
         + destruct Hshape as [[-> _]|[-> _]]; eauto.
         + intros Hu. by destruct Hno_up.
       - exists (Ok (heuristic item)), calls1. repeat split; eauto.
         + destruct Hshape as [[-> _]|[-> _]]; eauto.
         + intros Hu. by destruct Hno_up. }
  set (st1 := mkState (db st) (llm_log st ++ calls1)) in *.
  destruct (call_llm_run e Upgrade prompt um st1) as (s2 & t2 & -> & _ & _).
  assert (Hup : exists text st1 cat norm,
             first_response e prompt st = (Ok (OK, text), st1) /\
             truthy (_parse_dict_from_ai_response e text) = true /\
             read_fields (_parse_dict_from_ai_response e text) = Ok (cat, norm) /\
             PyStr.slice_to 4 cat = "Misc") by (eexists _, _, _, _; eauto).
  assert (Hcalls : llm_log st1 ++ [mkCall Upgrade um prompt]
                   = llm_log st ++ (calls1 ++ [mkCall Upgrade um prompt])).
  { subst st1. simpl. by rewrite <- app_assoc. }
  assert (Hshape' :
    calls1 ++ [mkCall Upgrade um prompt] = [] \/
    calls1 ++ [mkCall Upgrade um prompt] = [mkCall Primary pm prompt] \/
    calls1 ++ [mkCall Upgrade um prompt]
      = [mkCall Primary pm prompt; mkCall Alternative am prompt] \/
    calls1 ++ [mkCall Upgrade um prompt]
      = [mkCall Primary pm prompt; mkCall Upgrade um prompt] \/
    calls1 ++ [mkCall Upgrade um prompt]
      = [mkCall Primary pm prompt; mkCall Alternative am prompt;
         mkCall Upgrade um prompt]).
  { destruct Hshape as [[-> _]|[-> _]]; simpl; eauto 6. }
  assert (Halt' : mkCall Alternative am prompt ∈ calls1 ++ [mkCall Upgrade um prompt] ->
                  genai e (llm_log st) pm prompt = RaisedClientError).
  { intros [H|H]%elem_of_app; [by apply Halt|].
    apply list_elem_of_singleton in H. discriminate. }
  rewrite Hcalls. change (db st1) with (db st).
  assert (Hok : forall (c n : string),
             (exists cat norm, Ok (c, n) = Ok (cat, norm)) \/
             @Ok (string * string) (c, n) = Raise AttributeError) by (left; eauto).
  assert (Hheur' : (exists cat norm, Ok (heuristic item) = Ok (cat, norm)) \/
                   Ok (heuristic item) = Raise AttributeError) by (by left).
  assert (Hup' : mkCall Upgrade um prompt ∈ calls1 ++ [mkCall Upgrade um prompt] ->
            exists text st0 cat0 norm0,
              (@Ok (Status * string) (OK, t), st1) = (Ok (OK, text), st0) /\
              truthy (_parse_dict_from_ai_response e text) = true /\
              read_fields (_parse_dict_from_ai_response e text) = Ok (cat0, norm0) /\
              PyStr.slice_to 4 cat0 = "Misc") by (intros _; eexists _, _, _, _; eauto).
  case_decide as Hs2.
  - destruct (truthy (_parse_dict_from_ai_response e t2)) eqn:Ht2.
    + destruct (read_fields (_parse_dict_from_ai_response e t2)) as [[cat2 norm2]|ex2] eqn:Hrf2.
      * cbn beta iota. case_decide;
          eexists _, (calls1 ++ [mkCall Upgrade um prompt]);
          (split; [reflexivity|]); repeat split; eauto.
      * exists (Raise ex2), (calls1 ++ [mkCall Upgrade um prompt]). repeat split; eauto.
        right. f_equal. by eapply read_fields_raise.
    + cbn beta iota. case_decide;
        eexists _, (calls1 ++ [mkCall Upgrade um prompt]);
        (split; [reflexivity|]); repeat split; eauto.
  - cbn beta iota. case_decide;
      eexists _, (calls1 ++ [mkCall Upgrade um prompt]);
      (split; [reflexivity|]); repeat split; eauto.
Qed.

Lemma ai_fallback_db e item st : db (ai_fallback_classify e item st).2 = db st.
Proof. destruct (ai_fallback_run e item st) as (r & calls & -> & _). done. Qed.

Lemma ai_fallback_result e item st :
  (exists cat norm, (ai_fallback_classify e item st).1 = Ok (cat, norm)) \/
  (ai_fallback_classify e item st).1 = Raise AttributeError.
Proof. destruct (ai_fallback_run e item st) as (r & calls & -> & _ & _ & _ & H). done. Qed.

(** What a miss does to the database. *)
Lemma classify_uncached_cases e item st :
  let key := normalize_item_key item in
  get_cached_item (db st) key = None ->
  exists cat norm src st',
    classify_uncached e item key st = ((cat, norm, src), st') /\
    llm_log st' = llm_log (ai_fallback_classify e item st).2 /\
    ((cat = "Misc" /\ db st' = db st) \/
     (cat <> "Misc" /\ src = "ai" /\
      (ai_fallback_classify e item st).1 = Ok (cat, norm) /\
      db st' = set_item_cache (db st)
                 (<[key := mkCacheRow cat norm "ai"]> (item_cache (db st))))).
Proof.
  intros key Hmiss. unfold classify_uncached.
  pose proof (ai_fallback_db e item st) as Hdb.
  destruct (ai_fallback_classify e item st) as [[[cat norm]|ex] st1]; simpl in *.
  - case_decide as Hc.
    + eexists _, _, _, _. split; [reflexivity|]. split; [done|]. left. by rewrite Hdb.
    + eexists _, _, _, _. split; [reflexivity|]. split; [done|]. right.
      repeat split; try done. simpl. rewrite Hdb.
      rewrite cache_item_miss; fold key; unfold key;
        rewrite normalize_item_key_idem; [done|]. apply Hmiss.
  - eexists _, _, _, _. split; [reflexivity|]. split; [done|]. left. by rewrite Hdb.
Qed.

Lemma classify_hit e item st row :
  get_cached_item (db st) (normalize_item_key item) = Some row ->
  classify_item_with_cache e item st =
  ((category row, normalized_name row, source row), st).
Proof.
  intros H. unfold classify_item_with_cache.
  change (PyStr.lower (PyStr.strip item)) with (normalize_item_key item). by rewrite H.
Qed.

Lemma classify_miss e item st :
  get_cached_item (db st) (normalize_item_key item) = None ->
  classify_item_with_cache e item st =
  classify_uncached e item (normalize_item_key item) st.
Proof.
  intros H. unfold classify_item_with_cache.
  change (PyStr.lower (PyStr.strip item)) with (normalize_item_key item). by rewrite H.
Qed.

Lemma classify_keeps_manual e item st key r :
  item_cache (db st) !! key = Some r -> source r = "manual" ->
  item_cache (db (classify_item_with_cache e item st).2) !! key = Some r.
Proof.
  intros Hk Hm.
  destruct (get_cached_item (db st) (normalize_item_key item)) as [row|] eqn:Hc.
  - by rewrite (classify_hit _ _ _ _ Hc).
  - rewrite (classify_miss _ _ _ Hc).
    destruct (classify_uncached_cases e item st Hc)
      as (cat & norm & src & st' & Hrun & _ & Hcases).
    rewrite Hrun. simpl. destruct Hcases as [[_ ->]|(_ & _ & _ & ->)]; simpl; [done|].
    rewrite lookup_insert_ne; [done|]. intros <-. unfold get_cached_item in Hc. congruence.
Qed.

Lemma group_items_keeps_manual e its grouped st key r :
  item_cache (db st) !! key = Some r -> source r = "manual" ->
  item_cache (db (group_items e its grouped st).2) !! key = Some r.
Proof.
  revert grouped st. induction its as [|item its IH]; intros grouped st Hk Hm; [done|].
  simpl. pose proof (classify_keeps_manual e item st key r Hk Hm) as H1.
  destruct (classify_item_with_cache e item st) as [[[cat norm] src] st1]. by apply IH.
Qed.

Lemma order_items_state e store_id its st :
  (order_items e store_id its st).2 = st \/
  exists grouped, (order_items e store_id its st).2 = (group_items e its grouped st).2.
Proof.
  unfold order_items, order_with_layout.
  destruct (if truthy_id store_id then _ else _); [|by left].
  right. exists []. by destruct (group_items e its [] st).
Qed.

(** C1: a record with source 'manual' survives every run of the automated
    paths: any number of resolutions, [order_items] requests and direct
    [cache_item] writes (whatever their source argument) leave its category,
    normalized_name and source as they were, and a resolution of an item
    with that key returns the record. *)
Theorem manual_override_protection e st st' key r :
  item_cache (db st) !! key = Some r ->
  source r = "manual" ->
  rtc (automated_step e) st st' ->
  item_cache (db st') !! key = Some r /\
  (forall item, normalize_item_key item = key ->
     classify_item_with_cache e item st' =
     ((category r, normalized_name r, source r), st')).
Proof.
  intros Hk Hm Hrun.
  assert (Hinv : item_cache (db st') !! key = Some r).
  { induction Hrun as [st|st st1 st2 Hstep _ IH]; [done|]. apply IH.
    destruct Hstep as [item st|store_id its st|item c n src st].
    - by apply classify_keeps_manual.
    - destruct (order_items_state e store_id its st) as [->|[g ->]]; [done|].
      by apply group_items_keeps_manual.
    - simpl. by apply cache_item_keeps_manual. }
  split; [done|]. intros item <-. by apply classify_hit.
Qed.

Lemma misc_never_persisted_aux e item st cat norm src st' :
  let key := normalize_item_key item in
  get_cached_item (db st) key = None ->
  classify_item_with_cache e item st = ((cat, norm, src), st') ->
  cat <> "Misc" ->
  src = "ai" /\
  db st' = set_item_cache (db st)
             (<[key := mkCacheRow cat norm "ai"]> (item_cache (db st))) /\
  get_cached_item (db st') key = Some (mkCacheRow cat norm "ai").
Proof.
  intros key Hmiss Hrun Hne. subst key. rewrite (classify_miss _ _ _ Hmiss) in Hrun.
  destruct (classify_uncached_cases e item st Hmiss)
    as (cat' & norm' & src' & st1 & Hrun' & _ & Hcases).
  rewrite Hrun' in Hrun. injection Hrun as -> -> -> ->.
  destruct Hcases as [[-> Hdb]|(_ & -> & _ & Hdb)]; [done|].
  repeat split; [done|]. rewrite Hdb. unfold get_cached_item. simpl. apply lookup_insert_eq.
Qed.

(** C2: on a miss, a 'Misc' result leaves the database as it was, and any
    other result makes the single write of (normalized key, category,
    normalized_name, 'ai'); after a 'Misc' result the key is still absent, so
    the next resolution of the item runs the classification block again. *)
Theorem misc_never_persisted e item st cat norm src st' :
  let key := normalize_item_key item in
  get_cached_item (db st) key = None ->
  classify_item_with_cache e item st = ((cat, norm, src), st') ->
  (cat = "Misc" ->
     db st' = db st /\
     get_cached_item (db st') key = None /\
     classify_item_with_cache e item st' = classify_uncached e item key st') /\
  (cat <> "Misc" ->
     src = "ai" /\
     db st' = set_item_cache (db st)
                (<[key := mkCacheRow cat norm "ai"]> (item_cache (db st))) /\
     get_cached_item (db st') key = Some (mkCacheRow cat norm "ai")).
Proof.
  intros key Hmiss Hrun. subst key. rewrite (classify_miss _ _ _ Hmiss) in Hrun.
  destruct (classify_uncached_cases e item st Hmiss)
    as (cat' & norm' & src' & st1 & Hrun' & _ & Hcases).
  rewrite Hrun' in Hrun. injection Hrun as -> -> -> ->.
  destruct Hcases as [[-> Hdb]|(Hne & -> & _ & Hdb)].
  - split; [|done]. intros _. rewrite Hdb. repeat split; [done|].
    apply classify_miss. by rewrite Hdb.
  - split; [done|]. intros _. repeat split; [done|].
    rewrite Hdb. unfold get_cached_item. simpl. apply lookup_insert_eq.
Qed.

(** C3 (amended): when the first resolution is a cache hit, or returns a
    category other than 'Misc', resolving the item again returns the same
    triple, read verbatim from the cached record, and leaves the state (the
    database and the log of model calls) as it was. *)
Theorem resolve_twice_from_cache e item st cat norm src st1 :
  let key := normalize_item_key item in
  classify_item_with_cache e item st = ((cat, norm, src), st1) ->
  is_Some (get_cached_item (db st) key) \/ cat <> "Misc" ->
  get_cached_item (db st1) key = Some (mkCacheRow cat norm src) /\
  classify_item_with_cache e item st1 = ((cat, norm, src), st1).
Proof.
  intros key Hrun Hcond.
  assert (Hrow : get_cached_item (db st1) key = Some (mkCacheRow cat norm src)).
  { destruct (get_cached_item (db st) key) as [row|] eqn:Hc.
    - rewrite (classify_hit _ _ _ _ Hc) in Hrun. injection Hrun as <- <- <- <-.
      rewrite Hc. by destruct row.
    - destruct Hcond as [[? ?]|Hne]; [done|].
      destruct (misc_never_persisted_aux e item st cat norm src st1 Hc Hrun Hne)
        as (-> & _ & ?). done. }
  split; [done|]. by rewrite (classify_hit _ _ _ _ Hrow).
Qed.

(** C9: a resolution always returns a triple; when the classification step
    raises, the triple is ('Misc', the title-cased trimmed item, 'fallback'),
    the database is untouched and nothing is raised to the caller. *)
Theorem resolve_never_fails e item st :
  (exists cat norm src st',
     classify_item_with_cache e item st = ((cat, norm, src), st')) /\
  (forall ex st1,
     get_cached_item (db st) (normalize_item_key item) = None ->
     ai_fallback_classify e item st = (Raise ex, st1) ->
     classify_item_with_cache e item st =
       (("Misc", PyStr.title (PyStr.strip item), "fallback"), st1) /\
     db st1 = db st).
Proof.
  split.
  - destruct (classify_item_with_cache e item st) as [[[cat norm] src] st']. eauto.
  - intros ex st1 Hmiss Hraise. rewrite (classify_miss _ _ _ Hmiss).
    unfold classify_uncached. rewrite Hraise. split.
    + unfold normalize_item_key. rewrite prettify_key. done.
    + pose proof (ai_fallback_db e item st) as H. by rewrite Hraise in H.
Qed.

End ResolverFacts.

Section ChainRaise.
Import Db Organize.

Local Ltac unfold_M :=
  unfold mbind, M_bind, mret, M_ret, bind, ret, lift, raise in *.

Local Opaque heuristic first_three make_prompt _parse_dict_from_ai_response read_fields.


End ChainRaise.

Section EscalationFacts.
Import Db Organize.

Local Ltac unfold_M :=
  unfold mbind, M_bind, mret, M_ret, bind, ret, lift, raise in *.

Local Opaque heuristic first_three make_prompt _parse_dict_from_ai_response.



End EscalationFacts.

(** ** Concrete runs *)

Section Runs.
Import Db Organize Sample.

Lemma manual_override_protection_witness :
  item_cache (db (classify_item_with_cache no_credential "ICE CREAM"
                    (mkState (cache_item (db pinned) "ice cream" "Dairy" "Ice Cream" "ai")
                             (llm_log pinned))).2)
    !! "ice cream" = Some (mkCacheRow "Frozen" "Ice Cream" "manual").
Proof.
  refine (proj1 (manual_override_protection no_credential pinned _ "ice cream"
                   (mkCacheRow "Frozen" "Ice Cream" "manual") _ _ _)).
  - vm_compute. reflexivity.
  - reflexivity.
  - eapply rtc_l; [apply step_cache_item|]. apply rtc_once. apply step_resolve.
Defined.

Lemma misc_never_persisted_witness :
  db (classify_item_with_cache no_credential "quirky item" fresh).2 = db fresh.
Proof.
  refine (proj1 (proj1 (misc_never_persisted no_credential "quirky item" fresh
                          "Misc" "Quirky Item" "ai" _ _ _) eq_refl)).
  - vm_compute. reflexivity.
  - vm_compute. reflexivity.
Defined.

(** C3, as stated, fails: the first resolution degrades to the fallback
    (the answer lacks a field), nothing is cached, and the second
    resolution classifies again and returns a different triple. *)
Lemma resolve_twice_counterexample :
  let e := scripted (Some "key") [Responded (fenced (payload_no_name "Produce"))] in
  let first := classify_item_with_cache e "quirky item" fresh in
  let second := classify_item_with_cache e "quirky item" first.2 in
  first.1 = ("Misc", "Quirky Item", "fallback") /\
  second.1 = ("Misc", "Quirky Item", "ai") /\
  first.1 <> second.1 /\
  get_cached_item (db first.2) (normalize_item_key "quirky item") = None /\
  length (llm_log second.2) = 2.
Proof. vm_compute. repeat split; try reflexivity. intros H. discriminate H. Qed.

Lemma resolve_twice_from_cache_witness :
  classify_item_with_cache no_credential "Greek  yogurt"
    (classify_item_with_cache no_credential "Greek  yogurt" fresh).2
  = (("Dairy", "Greek Yogurt", "ai"),
     (classify_item_with_cache no_credential "Greek  yogurt" fresh).2).
Proof.
  refine (proj2 (resolve_twice_from_cache no_credential "Greek  yogurt" fresh
                   "Dairy" "Greek Yogurt" "ai" _ _ _)).
  - vm_compute. reflexivity.
  - right. discriminate.
Defined.

(** C4: the heuristic classifier puts "ice cream sandwich" in 'Dairy': the
    'Dairy' bucket, with the keyword "cream", comes before the 'Frozen'
    bucket, whose keyword "ice cream" is never reached. *)
Theorem ice_cream_sandwich_is_dairy :
  heuristic_bucket "ice cream sandwich" HEURISTIC_BUCKETS = Some ("Dairy", "cream") /\
  (ai_fallback_classify no_credential "ice cream sandwich" fresh).1
    = Ok ("Dairy", "Ice Cream Sandwich") /\
  (classify_item_with_cache no_credential "ice cream sandwich" fresh).1
    = ("Dairy", "Ice Cream Sandwich", "ai") /\
  (classify_item_with_cache no_credential "ice cream" fresh).1
    = ("Dairy", "Ice Cream", "ai").
Proof. vm_compute. repeat split; reflexivity. Qed.





(** The spec's examples of flattening and of the order of unmapped
    categories. *)
Example flatten_example :
  flatten_layout [("Zone1", ["Produce"]); ("Zone2", ["Bakery"; "Dairy"])]
  = ["Produce"; "Bakery"; "Dairy"].
Proof. vm_compute. reflexivity. Qed.

Example unmapped_order_example :
  zone <$> (order_with_layout no_credential
              [("Zone1", ["Produce"]); ("Zone2", ["Dairy"])]
              ["chips"; "salmon"; "milk"; "quirky item"; "apple"] fresh).1
  = ["Produce"; "Dairy"; "Misc"; "Seafood"; "Snacks"].
Proof. vm_compute. reflexivity. Qed.

Example no_store_example :
  (order_items no_credential None ["milk"] fresh).1
  = Ok [mkGroup "Dairy" ["Milk"]].
Proof. vm_compute. reflexivity. Qed.

Lemma resolve_never_fails_witness :
  let e := scripted (Some "key") [Responded (fenced (payload_no_name "Produce"))] in
  (classify_item_with_cache e "  whole MILK " fresh).1 = ("Misc", "Whole Milk", "fallback").
Proof.
  intros e.
  pose proof (proj2 (resolve_never_fails e "  whole MILK " fresh)
                AttributeError (ai_fallback_classify e "  whole MILK " fresh).2) as H.
  destruct H as [H _].
  - vm_compute. reflexivity.
  - vm_compute. reflexivity.
  - rewrite H. vm_compute. reflexivity.
Defined.

End Runs.

(** ** Sorting *)

Section SortFacts.
Import PyStr.
Context {A : Type} (before : A -> A -> bool).

Lemma insert_sorted_perm x l : insert_sorted before x l ≡ₚ x :: l.
Proof.
  induction l as [|y l IH]; simpl; [done|].
  destruct (before x y); [done|]. rewrite IH. apply perm_swap.
Qed.

Lemma sort_by_perm l : sort_by before l ≡ₚ l.
Proof.
  induction l as [|x l IH]; simpl; [done|].
  rewrite insert_sorted_perm. by rewrite IH.
Qed.

Hypothesis before_total : forall x y, before x y = false -> before y x = true.
Hypothesis before_trans :
  forall x y z, before x y = true -> before y z = true -> before x z = true.

Lemma insert_sorted_sorted x l :
  StronglySorted (fun a b => before a b = true) l ->
  StronglySorted (fun a b => before a b = true) (insert_sorted before x l).
Proof.
  induction l as [|y l IH]; intros Hs; simpl.
  - repeat constructor.
  - inversion Hs as [|? ? Hl Hy]; subst.
    destruct (before x y) eqn:E.
    + constructor; [done|]. constructor; [done|].
      eapply Forall_impl; [exact Hy|]. intros z Hz. simpl in Hz. by eapply before_trans.
    + constructor; [by apply IH|].
      apply Forall_forall. intros z Hz. rewrite insert_sorted_perm in Hz.
      apply elem_of_cons in Hz as [-> | Hz]; [by apply before_total|].
      rewrite Forall_forall in Hy. by apply Hy.
Qed.

Lemma sort_by_sorted l :
  StronglySorted (fun a b => before a b = true) (sort_by before l).
Proof.
  induction l as [|x l IH]; simpl; [constructor|]. by apply insert_sorted_sorted.
Qed.

End SortFacts.

Lemma sort_labels_sorted l : StronglySorted label_le (PyStr.sort_by String.leb l).
Proof.
  apply sort_by_sorted.
  - intros x y H. destruct (String.leb_total x y) as [H'|H']; congruence.
  - intros x y z Hxy Hyz. apply Is_true_true.
    pose proof (@transitivity _ String.le _) as T.
    apply (T x y z); by apply Is_true_true.
Qed.

(** ** Insertion-ordered dictionaries *)

Section DictFacts.

Lemma od_keys_append k v d :
  od_keys (od_append k v d) =
  if decide (k ∈ od_keys d) then od_keys d else od_keys d ++ [k].
Proof.
  unfold od_keys. induction d as [|[k' vs] d IH]; csimpl; [done|].
  destruct (decide (k = k')) as [->|Hne]; csimpl.
  - rewrite decide_True; [done|]. apply elem_of_cons. by left.
  - rewrite IH. destruct (decide (k ∈ d.*1)) as [Hin|Hnin].
    + rewrite decide_True; [done|]. apply elem_of_cons. by right.
    + rewrite decide_False; [done|]. intros [?|?]%elem_of_cons; done.
Qed.

Lemma od_append_NoDup k v d : NoDup (od_keys d) -> NoDup (od_keys (od_append k v d)).
Proof.
  intros H. rewrite od_keys_append. case_decide as Hin; [done|].
  apply NoDup_app. split; [done|]. split.
  - intros x Hx Hx'. apply list_elem_of_singleton in Hx'. by subst.
  - apply NoDup_singleton.
Qed.

Lemma od_append_nonempty k v d :
  Forall (fun p => p.2 <> []) d -> Forall (fun p => p.2 <> []) (od_append k v d).
Proof.
  induction d as [|[k' vs] d IH]; intros H; simpl.
  - by repeat constructor.
  - inversion H; subst. case_decide.
    + constructor; [|done]. simpl. by destruct vs.
    + constructor; [done|]. by apply IH.
Qed.

Lemma od_get_elem k d vs : od_get k d = Some vs -> (k, vs) ∈ d.
Proof.
  induction d as [|[k' vs'] d IH]; simpl; [done|].
  case_decide as Hk.
  - intros [= ->]. subst. apply elem_of_cons. by left.
  - intros H. apply elem_of_cons. right. by apply IH.
Qed.

Lemma od_get_is_Some k d : is_Some (od_get k d) <-> k ∈ od_keys d.
Proof.
  unfold od_keys. induction d as [|[k' vs'] d IH]; csimpl.
  - split; [by intros [? ?]|]. intros H. by apply elem_of_nil in H.
  - case_decide as Hk.
    + subst. split; [|by eauto]. intros _. apply elem_of_cons. by left.
    + rewrite IH. rewrite elem_of_cons. split; [by right|]. by intros [?|?].
Qed.

End DictFacts.

(** ** Flattening a layout *)

Section LayoutFacts.
Import Organize.

Lemma flatten_fold cats s lay :
  (forall x, x ∈ s <-> x ∈ lay) ->
  exists s',
    fold_left flatten_step cats (s, lay) = (s', lay ++ first_occurrences lay cats) /\
    (forall x, x ∈ s' <-> x ∈ lay ++ first_occurrences lay cats).
Proof.
  revert s lay. induction cats as [|c cats IH]; intros s lay Hs; simpl.
  - exists s. rewrite app_nil_r. done.
  - unfold flatten_step at 2. simpl.
    destruct (decide (c ∈ s)) as [Hin|Hnin].
    + rewrite decide_True by (by apply Hs). by apply IH.
    + rewrite decide_False by (by rewrite <- Hs).
      destruct (IH ({[c]} ∪ s) (lay ++ [c])) as (s' & Hfold & Hs').
      { intros x. rewrite elem_of_union, elem_of_singleton, elem_of_app,
          list_elem_of_singleton, Hs. tauto. }
      exists s'. rewrite <- app_assoc in Hfold, Hs'. done.
Qed.

Lemma flatten_zones (db_layout : list (string * list string)) acc :
  fold_left (fun acc '(_zone, cats) => fold_left flatten_step cats acc) db_layout acc
  = fold_left flatten_step (concat db_layout.*2) acc.
Proof.
  revert acc. induction db_layout as [|[z cats] L IH]; intros acc; simpl; [done|].
  rewrite fold_left_app. apply IH.
Qed.

Lemma flatten_layout_spec db_layout :
  flatten_layout db_layout = first_occurrences [] (concat db_layout.*2).
Proof.
  unfold flatten_layout. rewrite flatten_zones.
  destruct (flatten_fold (concat db_layout.*2) ∅ []) as (s' & -> & _); [|done].
  intros x. rewrite elem_of_empty. split; [done|]. intros H. by apply elem_of_nil in H.
Qed.

Lemma first_occurrences_elem done cats x :
  x ∈ first_occurrences done cats <-> x ∈ cats /\ x ∉ done.
Proof.
  revert done. induction cats as [|c cats IH]; intros done; simpl.
  - split; [intros H; by apply elem_of_nil in H|]. intros [H _]. by apply elem_of_nil in H.
  - case_decide as Hc.
    + rewrite IH, elem_of_cons. split; [tauto|]. intros [[->|?] ?]; [done|tauto].
    + rewrite elem_of_cons, IH, elem_of_cons, not_elem_of_app, list_elem_of_singleton.
      split.
      * intros [->|(? & ? & ?)]; tauto.
      * intros [[->|?] ?]; [by left|]. destruct (decide (x = c)); tauto.
Qed.

Lemma first_occurrences_NoDup done cats : NoDup (first_occurrences done cats).
Proof.
  revert done. induction cats as [|c cats IH]; intros done; simpl; [constructor|].
  case_decide; [done|]. apply NoDup_cons. split; [|done].
  rewrite first_occurrences_elem, not_elem_of_app, list_elem_of_singleton. tauto.
Qed.

End LayoutFacts.

(** ** The ordering engine *)

Section OrderingFacts.
Import Db Organize.

Lemma group_items_inv e its grouped st :
  NoDup (od_keys grouped) -> Forall (fun p => p.2 <> []) grouped ->
  NoDup (od_keys (group_items e its grouped st).1) /\
  Forall (fun p => p.2 <> []) (group_items e its grouped st).1.
Proof.
  revert grouped st. induction its as [|item its IH]; intros grouped st Hnd Hne; simpl; [done|].
  destruct (classify_item_with_cache e item st) as [[[cat norm] src] st1].
  apply IH; [by apply od_append_NoDup | by apply od_append_nonempty].
Qed.

Lemma zone_emit grouped (l : list string) : zone <$> (emit grouped <$> l) = l.
Proof. induction l as [|c l IH]; csimpl; [done|]. by rewrite IH. Qed.

Lemma emit_group grouped c :
  Forall (fun p => p.2 <> []) grouped ->
  c ∈ od_keys grouped ->
  items (emit grouped c) <> [] /\
  od_get (zone (emit grouped c)) grouped = Some (items (emit grouped c)).
Proof.
  intros Hne [vs Hvs]%od_get_is_Some. unfold emit. simpl. rewrite Hvs. simpl.
  split; [|done]. apply od_get_elem in Hvs. rewrite Forall_forall in Hne.
  by apply (Hne (c, vs)).
Qed.

(** C8: for every layout and item list, the output lists first the
    categories of the flattened layout (zones in stored order, each category
    where it is first seen) that have items, in layout order, then every
    other category that has items ('Misc' among them) in ascending
    lexicographic order; each category with items is emitted once and no
    group is empty.  [order_items] runs this on the store's layout, or on the
    generic one, and never raises. *)
Theorem order_items_group_order e db_layout its st :
  exists grouped st' out,
    order_with_layout e db_layout its st = (out, st') /\
    group_items e its [] st = (grouped, st') /\
    flatten_layout db_layout = first_occurrences [] (concat db_layout.*2) /\
    (exists mapped extra,
      zone <$> out = mapped ++ extra /\
      mapped = filter (fun c => c ∈ od_keys grouped) (flatten_layout db_layout) /\
      extra ≡ₚ filter (fun c => c ∉ flatten_layout db_layout) (od_keys grouped) /\
      StronglySorted label_le extra /\
      NoDup (zone <$> out) /\
      (forall c, c ∈ zone <$> out <-> c ∈ od_keys grouped) /\
      Forall (fun g => items g <> [] /\
                       od_get (zone g) grouped = Some (items g)) out) /\
    (forall store_id,
       order_items e store_id its st =
       let '(output, st1) :=
         order_with_layout e
           (if truthy_id store_id
            then layout_of_id (db st) (default 0 store_id)
            else GENERIC_LAYOUT) its st in
       (Ok output, st1)).
Proof.
  destruct (group_items_inv e its [] st) as [Hnd Hne];
    [constructor | constructor |].
  unfold order_with_layout.
  destruct (group_items e its [] st) as [grouped st'] eqn:Hg. simpl in Hnd, Hne.
  exists grouped, st', (build_output (flatten_layout db_layout) grouped).
  split; [done|]. split; [done|]. split; [apply flatten_layout_spec|].
  split.
  2: { intros store_id. unfold order_items, order_with_layout.
       destruct store_id as [[|n]|]; simpl; by rewrite Hg. }
  set (layout := flatten_layout db_layout).
  assert (Hlay : NoDup layout).
  { subst layout. rewrite flatten_layout_spec. apply first_occurrences_NoDup. }
  set (mapped := filter (fun c => c ∈ od_keys grouped) layout).
  set (rest := filter (fun c => c ∉ layout) (od_keys grouped)).
  set (extra := PyStr.sort_by String.leb rest).
  assert (Hextra : extra ≡ₚ rest) by apply sort_by_perm.
  assert (Hzones : zone <$> build_output layout grouped = mapped ++ extra).
  { unfold build_output. rewrite fmap_app, !zone_emit. f_equal.
    apply list_filter_iff. intros c. apply od_get_is_Some. }
  exists mapped, extra. rewrite Hzones.
  split; [done|]. split; [done|]. split; [done|].
  split; [apply sort_labels_sorted|].
  assert (Hmapped : forall c, c ∈ mapped <-> c ∈ od_keys grouped /\ c ∈ layout).
  { intros c. subst mapped. by rewrite list_elem_of_filter. }
  assert (Hrest : forall c, c ∈ extra <-> (c ∉ layout) /\ c ∈ od_keys grouped).
  { intros c. rewrite Hextra. subst rest. by rewrite list_elem_of_filter. }
  split; [|split].
  - apply NoDup_app. split; [by apply NoDup_filter|]. split.
    + intros c Hc Hc'. apply Hmapped in Hc. apply Hrest in Hc'. tauto.
    + rewrite Hextra. by apply NoDup_filter.
  - intros c. rewrite elem_of_app, Hmapped, Hrest.
    destruct (decide (c ∈ layout)); tauto.
  - unfold build_output. apply Forall_app. split.
    + apply Forall_fmap, Forall_forall. intros c Hc. apply emit_group; [done|].
      apply list_elem_of_filter in Hc as [Hc _]. by apply od_get_is_Some.
    + apply Forall_fmap, Forall_forall. intros c Hc. apply emit_group; [done|].
      change (c ∈ extra) in Hc. apply Hrest in Hc. tauto.
Qed.

End OrderingFacts.

(** ** The heuristic classifier in general *)

Section HeuristicFacts.
Import Organize.

Lemma insert_sorted_filter {A} (before : A -> A -> bool) (P : A -> Prop)
    `{forall x, Decision (P x)} x l :
  (forall y, P x -> P y -> before x y = true) ->
  filter P (PyStr.insert_sorted before x l) = filter P (x :: l).
Proof.
  intros Hties. induction l as [|y l IH]; simpl; [done|].
  destruct (before x y) eqn:E; [done|].
  rewrite filter_cons, IH, !filter_cons.
  destruct (decide (P y)) as [Hy|Hy]; [|done].
  destruct (decide (P x)) as [Hx|Hx]; [|done].
  rewrite Hties in E by done. discriminate.
Qed.

Lemma StronglySorted_weaken {A} (R R' : A -> A -> Prop) l :
  (forall x y, R x y -> R' x y) -> StronglySorted R l -> StronglySorted R' l.
Proof.
  intros HR. induction 1 as [|x l _ IH Hx]; constructor; [done|].
  eapply Forall_impl; [exact Hx|]. intros y. apply HR.
Qed.

(** Keywords of one length keep their order in the list. *)
Lemma longest_first_stable n keywords :
  filter (fun k => String.length k = n) (longest_first keywords)
  = filter (fun k => String.length k = n) keywords.
Proof.
  unfold longest_first. induction keywords as [|k kws IH]; simpl; [done|].
  rewrite insert_sorted_filter.
  - by rewrite !filter_cons, IH.
  - intros y Hk Hy. simpl in *. apply Nat.leb_le. lia.
Qed.

Lemma longest_first_perm keywords : longest_first keywords ≡ₚ keywords.
Proof. apply sort_by_perm. Qed.

(** Longer keywords come first. *)
Lemma longest_first_sorted keywords :
  StronglySorted (fun k1 k2 => String.length k2 <= String.length k1)
                 (longest_first keywords).
Proof.
  unfold longest_first.
  eapply StronglySorted_weaken; [|apply sort_by_sorted].
  - intros k1 k2 H. simpl in H. by apply Nat.leb_le.
  - intros x y H. simpl in *. apply Nat.leb_le. apply Nat.leb_gt in H. lia.
  - intros x y z H1 H2. simpl in *. apply Nat.leb_le.
    apply Nat.leb_le in H1, H2. lia.
Qed.

Lemma first_keyword_spec lowered kws kw :
  first_keyword lowered kws = Some kw ->
  exists pre post,
    kws = pre ++ kw :: post /\
    PyStr.contains kw lowered = true /\
    Forall (fun k => PyStr.contains k lowered = false) pre.
Proof.
  induction kws as [|k kws IH]; simpl; [done|].
  destruct (PyStr.contains k lowered) eqn:E.
  - intros [= ->]. exists [], kws. by repeat split.
  - intros (pre & post & -> & Hkw & Hpre)%IH.
    exists (k :: pre), post. repeat split; [done|]. by constructor.
Qed.

Lemma first_keyword_none lowered kws :
  first_keyword lowered kws = None <->
  Forall (fun k => PyStr.contains k lowered = false) kws.
Proof.
  induction kws as [|k kws IH]; simpl.
  - split; [constructor|done].
  - destruct (PyStr.contains k lowered) eqn:E.
    + split; [done|]. intros H. inversion H; congruence.
    + rewrite IH. split; [by constructor|]. intros H. by inversion H.
Qed.

(** The keyword chosen in a bucket is a longest matching keyword of the
    bucket. *)
Lemma first_keyword_longest lowered keywords kw :
  first_keyword lowered (longest_first keywords) = Some kw ->
  kw ∈ keywords /\ PyStr.contains kw lowered = true /\
  forall k, k ∈ keywords -> PyStr.contains k lowered = true ->
            String.length k <= String.length kw.
Proof.
  intros (pre & post & Heq & Hkw & Hpre)%first_keyword_spec.
  pose proof (longest_first_sorted keywords) as Hs.
  pose proof (longest_first_perm keywords) as Hp.
  rewrite Heq in Hs, Hp.
  split; [|split; [done|]].
  - rewrite <- Hp. apply elem_of_app. right. apply elem_of_cons. by left.
  - intros k Hk Hmatch. rewrite <- Hp in Hk.
    apply elem_of_app in Hk as [Hk|Hk].
    + rewrite Forall_forall in Hpre. rewrite (Hpre k Hk) in Hmatch. discriminate.
    + apply elem_of_cons in Hk as [->|Hk]; [done|].
      apply StronglySorted_app_1_r in Hs. inversion Hs as [|? ? _ Hall]; subst.
      rewrite Forall_forall in Hall. by apply Hall.
Qed.

(** The category returned is that of the first bucket with a matching
    keyword; 'Misc' is returned exactly when no keyword of any bucket
    matches. *)
Lemma heuristic_bucket_first lowered buckets cat kw :
  heuristic_bucket lowered buckets = Some (cat, kw) ->
  exists pre keywords post,
    buckets = pre ++ (cat, keywords) :: post /\
    Forall (fun b => Forall (fun k => PyStr.contains k lowered = false) b.2) pre /\
    kw ∈ keywords /\ PyStr.contains kw lowered = true /\
    forall k, k ∈ keywords -> PyStr.contains k lowered = true ->
              String.length k <= String.length kw.
Proof.
  induction buckets as [|[c kws] buckets IH]; simpl; [done|].
  destruct (first_keyword lowered (longest_first kws)) as [k|] eqn:E.
  - intros [= -> ->]. exists [], kws, buckets.
    split; [done|]. split; [constructor|]. by apply first_keyword_longest.
  - intros (pre & keywords & post & -> & Hpre & Hrest)%IH.
    exists ((c, kws) :: pre), keywords, post.
    split; [done|]. split; [|done]. constructor; [|done]. simpl.
    apply first_keyword_none in E. apply Forall_forall. intros k Hk.
    rewrite Forall_forall in E. apply E. by rewrite longest_first_perm.
Qed.

Lemma heuristic_bucket_none lowered buckets :
  heuristic_bucket lowered buckets = None <->
  Forall (fun b => Forall (fun k => PyStr.contains k lowered = false) b.2) buckets.
Proof.
  induction buckets as [|[c kws] buckets IH]; simpl.
  - split; [constructor|done].
  - destruct (first_keyword lowered (longest_first kws)) as [k|] eqn:E.
    + split; [done|]. intros H. inversion H as [|? ? Hk _]; subst. simpl in Hk.
      apply first_keyword_spec in E as (pre & post & Heq & Hm & _).
      rewrite Forall_forall in Hk. rewrite Hk in Hm; [discriminate|].
      rewrite <- (longest_first_perm kws), Heq.
      apply elem_of_app. right. apply elem_of_cons. by left.
    + rewrite IH. split.
      * intros H. constructor; [|done]. simpl.
        apply first_keyword_none in E. apply Forall_forall. intros k Hk.
        rewrite Forall_forall in E. apply E. by rewrite longest_first_perm.
      * intros H. by inversion H.
Qed.

End HeuristicFacts.

(** ** The layout query in general *)

Section LayoutQueryFacts.
Import Db.

Lemma od_append_adds k v d : exists vs, (k, vs) ∈ od_append k v d /\ v ∈ vs.
Proof.
  induction d as [|[k' vs'] d IH]; simpl.
  - exists [v]. split; apply list_elem_of_singleton; done.
  - case_decide as Hk.
    + subst. exists (vs' ++ [v]). split; [apply elem_of_cons; by left|].
      apply elem_of_app. right. by apply list_elem_of_singleton.
    + destruct IH as (vs & Hin & Hv). exists vs. split; [|done].
      apply elem_of_cons. by right.
Qed.

Lemma od_append_keeps k v d z c cats :
  (z, cats) ∈ d -> c ∈ cats ->
  exists cats', (z, cats') ∈ od_append k v d /\ c ∈ cats'.
Proof.
  induction d as [|[k' vs'] d IH]; simpl; intros Hin Hc.
  - by apply elem_of_nil in Hin.
  - apply elem_of_cons in Hin as [[= <- <-]|Hin].
    + case_decide.
      * exists (cats ++ [v]). split; [apply elem_of_cons; by left|].
        apply elem_of_app. by left.
      * exists cats. split; [apply elem_of_cons; by left|done].
    + case_decide.
      * exists cats. split; [apply elem_of_cons; by right|done].
      * destruct (IH Hin Hc) as (cats' & ? & ?). exists cats'.
        split; [apply elem_of_cons; by right|done].
Qed.

Lemma group_zones_fold rows acc z c :
  ((z, c) ∈ rows \/ exists cats, (z, cats) ∈ acc /\ c ∈ cats) ->
  exists cats,
    (z, cats) ∈ fold_left (fun zones '(zone_name, category) =>
                            od_append zone_name category zones) rows acc
    /\ c ∈ cats.
Proof.
  revert acc. induction rows as [|[z' c'] rows IH]; intros acc H; simpl.
  - destruct H as [H|H]; [by apply elem_of_nil in H|done].
  - apply IH. destruct H as [H|(cats & Hin & Hc)].
    + apply elem_of_cons in H as [[= -> ->]|H]; [|by left].
      right. apply od_append_adds.
    + right. by eapply od_append_keeps.
Qed.

(** Every category of every zone of every location of the store is in the
    layout returned for the store: no location is singled out. *)
Lemma layout_of_id_all_locations d store_id s sl sz zc :
  s ∈ stores d -> sl ∈ store_locations d ->
  sz ∈ store_zones d -> zc ∈ zone_categories d ->
  s_store_id s = store_id -> sl_store_id sl = store_id ->
  sz_location_id sz = sl_location_id sl -> zc_zone_id zc = sz_zone_id sz ->
  exists cats,
    (sz_zone_name sz, cats) ∈ layout_of_id d store_id /\ zc_category zc ∈ cats.
Proof.
  intros Hs Hsl Hsz Hzc E1 E2 E3 E4.
  unfold layout_of_id, group_zones. apply group_zones_fold. left.
  unfold order_by_zone_order.
  apply list_elem_of_fmap. exists (sz_zone_order sz, (sz_zone_name sz, zc_category zc)).
  split; [done|]. rewrite sort_by_perm. unfold layout_rows.
  apply list_elem_of_bind. exists s. split; [|done].
  apply list_elem_of_bind. exists sl. split; [|done].
  apply list_elem_of_bind. exists sz. split; [|done].
  apply list_elem_of_bind. exists zc. split; [|done].
  rewrite decide_True by (repeat split; congruence).
  by apply list_elem_of_singleton.
Qed.

End LayoutQueryFacts.

Section LocationMerge.
Import Db Sample.

Local Ltac perm_concrete :=
  repeat first
    [ apply perm_nil
    | apply perm_skip
    | apply (Permutation_cons_app [_]); simpl
    | apply (Permutation_cons_app [_; _]); simpl
    | apply (Permutation_cons_app [_; _; _]); simpl ].

Lemma two_locations_rows :
  layout_rows two_locations 1
  = [(1, ("Produce", "Produce")); (2, ("Dairy", "Dairy"));
     (1, ("Bakery", "Bakery")); (2, ("Frozen", "Frozen"))] /\
  Archive.location_rows two_locations 1
  = [(1, ("Produce", "Produce")); (2, ("Dairy", "Dairy"))].
Proof. vm_compute. split; reflexivity. Qed.

(** C7: for a store with two registered locations, the layout returned
    without a postal code holds the zones of both locations, in whatever
    order the database returns the rows of equal zone order, where the older
    query returned the zones of the first location only. *)
Theorem layout_merges_locations :
  let both :=
    [("Produce", ["Produce"]); ("Dairy", ["Dairy"]);
     ("Bakery", ["Bakery"]); ("Frozen", ["Frozen"])] in
  let first := [("Produce", ["Produce"]); ("Dairy", ["Dairy"])] in
  get_store_id two_locations "Wegmans" None = Ok 1 /\
  (exists layout,
     get_store_layout two_locations None (Some "Wegmans") None = Ok layout /\
     get_store_layout two_locations (Some 1) None None = Ok layout /\
     layout ≡ₚ both) /\
  (forall answer,
     query_order (layout_rows two_locations 1) answer ->
     group_zones answer.*2 ≡ₚ both) /\
  Archive.first_location two_locations "Wegmans" = Some 1 /\
  Archive.get_store_layout two_locations "Wegmans" None = first /\
  (forall answer,
     query_order (Archive.location_rows two_locations 1) answer ->
     group_zones answer.*2 = first).
Proof.
  intros both first. destruct two_locations_rows as [Hrows Hrows1].
  split; [vm_compute; reflexivity|]. split.
  { exists (layout_of_id two_locations 1).
    split; [vm_compute; reflexivity|]. split; [vm_compute; reflexivity|].
    vm_compute. perm_concrete. }
  split.
  { intros answer [Hp _]. rewrite Hrows in Hp. symmetry in Hp.
    apply permutations_Permutation in Hp.
    set (ps := permutations _) in Hp. vm_compute in ps. subst ps.
    repeat (apply elem_of_cons in Hp as [-> | Hp]; [vm_compute; perm_concrete|]).
    by apply elem_of_nil in Hp. }
  split; [vm_compute; reflexivity|]. split; [vm_compute; reflexivity|].
  intros answer [Hp Hs]. rewrite Hrows1 in Hp. symmetry in Hp.
  apply permutations_Permutation in Hp.
  set (ps := permutations _) in Hp. vm_compute in ps. subst ps.
  apply elem_of_cons in Hp as [-> | Hp]; [vm_compute; reflexivity|].
  apply elem_of_cons in Hp as [-> | Hp]; [|by apply elem_of_nil in Hp].
  inversion Hs as [|? ? _ Hf]; subst. inversion Hf as [|? ? Hle _]; subst.
  simpl in Hle. lia.
Qed.

End LocationMerge.

(** * Further properties of the code *)

(** ** Cache keys and cache writes *)

Section CacheWrites.
Import Db Organize.

(** X1: a normalized key is canonical: normalizing, trimming or lowercasing
    it again changes nothing. *)
Theorem normalize_item_key_canonical item :
  let key := normalize_item_key item in
  normalize_item_key key = key /\ PyStr.strip key = key /\ PyStr.lower key = key.
Proof.
  intros key. subst key. split; [apply normalize_item_key_idem|].
  unfold normalize_item_key. split.
  - by rewrite <- lower_strip, strip_idem.
  - apply lower_idem.
Qed.

Lemma cache_item_writes d item c n src :
  (forall old, item_cache d !! normalize_item_key item = Some old ->
               source old <> "manual") ->
  cache_item d item c n src =
  set_item_cache d (<[normalize_item_key item := mkCacheRow c n src]> (item_cache d)).
Proof.
  intros Hfree. unfold cache_item.
  destruct (item_cache d !! normalize_item_key item) as [old|] eqn:E; [|done].
  rewrite decide_False; [done|]. by apply Hfree.
Qed.

(** X2: unless the key holds a manual record, [cache_item] replaces whatever
    the key held by the new (category, normalized_name, source), whatever
    the source, and touches no other key. *)
Theorem cache_item_overwrites d item c n src :
  let key := normalize_item_key item in
  (forall old, item_cache d !! key = Some old -> source old <> "manual") ->
  get_cached_item (cache_item d item c n src) key = Some (mkCacheRow c n src) /\
  (forall k, k <> key ->
     get_cached_item (cache_item d item c n src) k = get_cached_item d k).
Proof.
  intros key Hfree. subst key. rewrite (cache_item_writes _ _ _ _ _ Hfree).
  unfold get_cached_item. simpl. split.
  - apply lookup_insert_eq.
  - intros k Hk. by rewrite lookup_insert_ne.
Qed.

(** X3: what [cache_item] stored is what the resolver returns, for every
    spelling of the item with the same normalized key, without any model
    call or further write. *)
Theorem cache_item_then_resolve e d log item item' c n src :
  (forall old, item_cache d !! normalize_item_key item = Some old ->
               source old <> "manual") ->
  normalize_item_key item' = normalize_item_key item ->
  let st := mkState (cache_item d item c n src) log in
  classify_item_with_cache e item' st = ((c, n, src), st).
Proof.
  intros Hfree Hkey st.
  assert (H : get_cached_item (db st) (normalize_item_key item')
              = Some (mkCacheRow c n src)).
  { subst st. simpl. rewrite Hkey, (cache_item_writes _ _ _ _ _ Hfree).
    unfold get_cached_item. simpl. apply lookup_insert_eq. }
  by rewrite (classify_hit _ _ _ _ H).
Qed.

End CacheWrites.

(** ** Store lookup *)

Section StoreLookup.
Import Db DbAdmin.

Lemma head_bind_Some {A B} (f : A -> list B) (l : list A) y ys :
  (x ← l; f x) = y :: ys -> exists x, x ∈ l /\ y ∈ f x.
Proof.
  intros H. assert (Hy : y ∈ (x ← l; f x)) by (rewrite H; apply elem_of_cons; by left).
  apply list_elem_of_bind in Hy as (x & ? & ?). eauto.
Qed.

Lemma bind_nil_all {A B} (f : A -> list B) (l : list A) :
  (x ← l; f x) = [] -> forall x, x ∈ l -> f x = [].
Proof.
  intros H x Hx. destruct (f x) as [|y ys] eqn:E; [done|].
  assert (Hy : y ∈ (x ← l; f x)).
  { apply list_elem_of_bind. exists x. split; [|done]. rewrite E. apply elem_of_cons. by left. }
  rewrite H in Hy. by apply elem_of_nil in Hy.
Qed.

Lemma fmap_bind_list {A B C} (h : B -> C) (g : A -> list B) (l : list A) :
  h <$> (x ← l; g x) = (x ← l; h <$> g x).
Proof. induction l as [|a l IH]; csimpl; [done|]. by rewrite fmap_app, IH. Qed.

Lemma bind_ext_list {A B} (f g : A -> list B) (l : list A) :
  (forall x, f x = g x) -> (x ← l; f x) = (x ← l; g x).
Proof. intros H. induction l as [|a l IH]; csimpl; [done|]. by rewrite H, IH. Qed.

(** X4: [get_store_id] returns the id of a store with that name (and, when
    a non-empty postal code is given, with a location at that postal code);
    it raises the not-found [ValueError] exactly when there is none.  An
    empty postal code counts as no postal code. *)
Theorem get_store_id_spec d store_name postal_code :
  match get_store_id d store_name postal_code with
  | Ok store_id =>
      exists s, s ∈ stores d /\ s_store_id s = store_id /\ s_name s = store_name /\
        (PyStr.truthy_opt postal_code = true ->
           exists sl, sl ∈ store_locations d /\ sl_store_id sl = store_id /\
                      sl_postal_code sl = postal_code)
  | Raise ex =>
      ex = not_found store_name postal_code /\
      if PyStr.truthy_opt postal_code then
        forall s sl, s ∈ stores d -> sl ∈ store_locations d ->
          ~ (s_store_id s = sl_store_id sl /\ s_name s = store_name /\
             sl_postal_code sl = postal_code)
      else forall s, s ∈ stores d -> s_name s <> store_name
  end.
Proof.
  unfold get_store_id. destruct (PyStr.truthy_opt postal_code) eqn:Ht.
  - destruct (stores d ≫= _) as [|id ids] eqn:E.
    + split; [done|]. intros s sl Hs Hsl Hm.
      pose proof (bind_nil_all _ _ E s Hs) as E1; cbn beta in E1.
      pose proof (bind_nil_all _ _ E1 sl Hsl) as E2; cbn beta in E2.
      by rewrite decide_True in E2.
    + apply head_bind_Some in E as (s & Hs & Hin).
      apply list_elem_of_bind in Hin as (sl & Hin & Hsl).
      case_decide as Hm; [|by apply elem_of_nil in Hin].
      apply list_elem_of_singleton in Hin. destruct Hm as (E1 & E2 & E3).
      exists s. repeat split; [done|done|done|]. intros _. exists sl.
      repeat split; [done|congruence|done].
  - destruct (stores d ≫= _) as [|id ids] eqn:E.
    + split; [done|]. intros s Hs Hn.
      pose proof (bind_nil_all _ _ E s Hs) as E1; cbn beta in E1. by rewrite decide_True in E1.
    + apply head_bind_Some in E as (s & Hs & Hin).
      case_decide as Hm; [|by apply elem_of_nil in Hin].
      apply list_elem_of_singleton in Hin.
      exists s. repeat split; [done|done|done|]. intros; discriminate.
Qed.

Lemma first_by_name d store_name s :
  NoDup (s_name <$> stores d) -> s ∈ stores d -> s_name s = store_name ->
  (s' ← stores d; if decide (s_name s' = store_name) then [s_store_id s'] else [])
  = [s_store_id s].
Proof.
  intros Hnd Hs Hn. induction (stores d) as [|a l IH]; [by apply elem_of_nil in Hs|].
  csimpl in *. apply NoDup_cons in Hnd as [Ha Hnd].
  apply elem_of_cons in Hs as [<-|Hs].
  - rewrite decide_True by done. simpl. f_equal.
    assert (Hrest : forall l', (forall x, x ∈ l' -> s_name x <> store_name) ->
              (s' ← l'; if decide (s_name s' = store_name) then [s_store_id s'] else [])
              = []).
    { induction l' as [|b l' IH']; intros Hall; csimpl; [done|].
      rewrite decide_False by (apply Hall, elem_of_cons; by left).
      simpl. apply IH'. intros x Hx. apply Hall, elem_of_cons. by right. }
    apply Hrest. intros x Hx Hxn. apply Ha. rewrite Hn, <- Hxn.
    by apply list_elem_of_fmap_2.
  - rewrite decide_False.
    + simpl. by apply IH.
    + intros Han. apply Ha. rewrite Han, <- Hn. by apply list_elem_of_fmap_2.
Qed.

(** X5: with store names unique (the table's [UNIQUE(name)]), a row
    returned by [get_store_details] names the requested store, carries the
    requested postal code when one was given, belongs to a location of that
    store, and has the id [get_store_id] returns for the same arguments. *)
Theorem get_store_details_agrees d store_name postal_code row :
  NoDup (s_name <$> stores d) ->
  get_store_details d store_name postal_code = Ok row ->
  sd_name row = store_name /\
  (PyStr.truthy_opt postal_code = true -> sd_postal_code row = postal_code) /\
  (exists sl, sl ∈ store_locations d /\ sl_location_id sl = sd_location_id row /\
              sl_store_id sl = sd_store_id row) /\
  get_store_id d store_name postal_code = Ok (sd_store_id row).
Proof.
  intros Hnd. unfold get_store_details, get_store_id.
  destruct (PyStr.truthy_opt postal_code) eqn:Ht.
  - destruct (stores d ≫= _) as [|r rs] eqn:E;
      [done|]. intros [= <-].
    pose proof E as E'.
    apply head_bind_Some in E' as (s & Hs & Hin).
    apply list_elem_of_bind in Hin as (sl & Hin & Hsl).
    case_decide as Hm; [|by apply elem_of_nil in Hin].
    apply list_elem_of_singleton in Hin. subst r. destruct Hm as (E1 & E2 & E3).
    simpl. repeat split; [done|done| by exists sl |].
    assert (Hmap : (s0 ← stores d; sl0 ← store_locations d;
                    if decide (s_store_id s0 = sl_store_id sl0 ∧ s_name s0 = store_name
                               ∧ sl_postal_code sl0 = postal_code)
                    then [s_store_id s0] else [])
                   = sd_store_id <$> (details_of s sl :: rs)).
    { rewrite <- E, fmap_bind_list. apply bind_ext_list. intros s0.
      rewrite fmap_bind_list. apply bind_ext_list. intros sl0. by case_decide. }
    by rewrite Hmap.
  - destruct (stores d ≫= _) as [|r rs] eqn:E;
      [done|]. intros [= <-].
    apply head_bind_Some in E as (s & Hs & Hin).
    apply list_elem_of_bind in Hin as (sl & Hin & Hsl).
    case_decide as Hm; [|by apply elem_of_nil in Hin].
    apply list_elem_of_singleton in Hin. subst r. destruct Hm as (E1 & E2).
    simpl. repeat split; [done|intros; discriminate| by exists sl |].
    by rewrite (first_by_name d store_name s).
Qed.

(** X6: a store that has no location resolves through [get_store_id] but
    not through [get_store_details], which raises the not-found
    [ValueError]. *)
Theorem store_without_location d s :
  NoDup (s_name <$> stores d) ->
  s ∈ stores d ->
  (forall sl, sl ∈ store_locations d -> sl_store_id sl <> s_store_id s) ->
  get_store_id d (s_name s) None = Ok (s_store_id s) /\
  get_store_details d (s_name s) None = Raise (not_found (s_name s) None).
Proof.
  intros Hnd Hs Hnone. split.
  - unfold get_store_id. simpl. by rewrite (first_by_name d (s_name s) s).
  - unfold get_store_details. simpl.
    destruct (stores d ≫= _) as [|r rs] eqn:E;
      [done|].
    apply head_bind_Some in E as (s' & Hs' & Hin).
    apply list_elem_of_bind in Hin as (sl & Hin & Hsl).
    case_decide as Hm; [|by apply elem_of_nil in Hin]. destruct Hm as [E1 E2].
    assert (s' = s) as ->.
    { clear -Hnd Hs Hs' E2. induction (stores d) as [|a l IH]; [by apply elem_of_nil in Hs|].
      csimpl in Hnd. apply NoDup_cons in Hnd as [Ha Hnd].
      apply elem_of_cons in Hs as [->|Hs]; apply elem_of_cons in Hs' as [->|Hs'].
      - done.
      - destruct Ha. rewrite <- E2. by apply list_elem_of_fmap_2.
      - destruct Ha. rewrite E2. by apply list_elem_of_fmap_2.
      - by apply IH. }
    destruct (Hnone sl Hsl). done.
Qed.

End StoreLookup.

(** ** The layout returned for a store *)

Section LayoutInvariants.
Import Db.

Lemma bind_all_nil {A B} (f : A -> list B) (l : list A) :
  (forall x, x ∈ l -> f x = []) -> (x ← l; f x) = [].
Proof.
  induction l as [|a l IH]; intros H; csimpl; [done|].
  rewrite H by (apply elem_of_cons; by left). simpl.
  apply IH. intros x Hx. apply H, elem_of_cons. by right.
Qed.

Lemma od_append_sound k v d z cats c :
  (z, cats) ∈ od_append k v d -> c ∈ cats ->
  (z = k /\ c = v) \/ exists cats', (z, cats') ∈ d /\ c ∈ cats'.
Proof.
  induction d as [|[k' vs'] d IH]; simpl; intros Hin Hc.
  - apply list_elem_of_singleton in Hin as [= -> ->].
    apply list_elem_of_singleton in Hc. by left.
  - case_decide as Hk.
    + apply elem_of_cons in Hin as [[= -> ->]|Hin].
      * apply elem_of_app in Hc as [Hc|Hc].
        -- right. exists vs'. split; [apply elem_of_cons; by left|done].
        -- apply list_elem_of_singleton in Hc. by left.
      * right. exists cats. split; [apply elem_of_cons; by right|done].
    + apply elem_of_cons in Hin as [[= -> ->]|Hin].
      * right. exists vs'. split; [apply elem_of_cons; by left|done].
      * destruct (IH Hin Hc) as [?|(cats' & ? & ?)]; [by left|].
        right. exists cats'. split; [apply elem_of_cons; by right|done].
Qed.

Lemma group_fold_sound rows acc z cats c :
  (z, cats) ∈ fold_left (fun zones '(zone_name, category) =>
                           od_append zone_name category zones) rows acc ->
  c ∈ cats ->
  (z, c) ∈ rows \/ exists cats', (z, cats') ∈ acc /\ c ∈ cats'.
Proof.
  revert acc. induction rows as [|[z' c'] rows IH]; intros acc Hin Hc; simpl in *.
  - right. eauto.
  - destruct (IH _ Hin Hc) as [H|(cats' & Hin' & Hc')].
    + left. apply elem_of_cons. by right.
    + destruct (od_append_sound _ _ _ _ _ _ Hin' Hc') as [[-> ->]|H].
      * left. apply elem_of_cons. by left.
      * by right.
Qed.

Lemma group_fold_shape rows acc :
  NoDup (od_keys acc) -> Forall (fun p => p.2 <> []) acc ->
  NoDup (od_keys (fold_left (fun zones '(zone_name, category) =>
                               od_append zone_name category zones) rows acc)) /\
  Forall (fun p => p.2 <> [])
         (fold_left (fun zones '(zone_name, category) =>
                       od_append zone_name category zones) rows acc).
Proof.
  revert acc. induction rows as [|[z c] rows IH]; intros acc Hnd Hne; simpl; [done|].
  apply IH; [by apply od_append_NoDup | by apply od_append_nonempty].
Qed.

Lemma layout_rows_elem d store_id o z c :
  (o, (z, c)) ∈ layout_rows d store_id ->
  exists s sl sz zc,
    s ∈ stores d /\ sl ∈ store_locations d /\
    sz ∈ store_zones d /\ zc ∈ zone_categories d /\
    s_store_id s = store_id /\ sl_store_id sl = store_id /\
    sz_location_id sz = sl_location_id sl /\ zc_zone_id zc = sz_zone_id sz /\
    sz_zone_order sz = o /\ sz_zone_name sz = z /\ zc_category zc = c.
Proof.
  unfold layout_rows. intros H.
  apply list_elem_of_bind in H as (s & H & Hs).
  apply list_elem_of_bind in H as (sl & H & Hsl).
  apply list_elem_of_bind in H as (sz & H & Hsz).
  apply list_elem_of_bind in H as (zc & H & Hzc).
  case_decide as Hm; [|by apply elem_of_nil in H].
  apply list_elem_of_singleton in H as [= -> -> ->].
  destruct Hm as (E1 & E2 & E3 & E4).
  exists s, sl, sz, zc. repeat split; try done; congruence.
Qed.

Lemma layout_of_id_wellformed d store_id :
  NoDup (layout_of_id d store_id).*1 /\
  Forall (fun z => z.2 <> []) (layout_of_id d store_id) /\
  forall zone_name cats c,
    (zone_name, cats) ∈ layout_of_id d store_id -> c ∈ cats ->
    exists s sl sz zc,
      s ∈ stores d /\ sl ∈ store_locations d /\
      sz ∈ store_zones d /\ zc ∈ zone_categories d /\
      s_store_id s = store_id /\ sl_store_id sl = store_id /\
      sz_location_id sz = sl_location_id sl /\ zc_zone_id zc = sz_zone_id sz /\
      sz_zone_name sz = zone_name /\ zc_category zc = c.
Proof.
  unfold layout_of_id, group_zones.
  destruct (group_fold_shape (order_by_zone_order (layout_rows d store_id)) [])
    as [Hnd Hne]; [constructor|constructor|].
  split; [exact Hnd|]. split; [exact Hne|].
  intros z cats c Hin Hc.
  destruct (group_fold_sound _ _ _ _ _ Hin Hc) as [H|(cats' & H & _)];
    [|by apply elem_of_nil in H].
  unfold order_by_zone_order in H.
  apply list_elem_of_fmap in H as ([o [z' c']] & [= <- <-] & H).
  rewrite sort_by_perm in H.
  apply layout_rows_elem in H as (s & sl & sz & zc & ? & ? & ? & ? & ? & ? & ? & ? & ? & ? & ?).
  exists s, sl, sz, zc. by repeat split.
Qed.

(** X7: a layout returned by [get_store_layout] has pairwise different zone
    names, no zone without a category, and only categories that the tables
    attach, through a zone and a location, to one store. *)
Theorem get_store_layout_wellformed d store_id store_name postal_code layout :
  get_store_layout d store_id store_name postal_code = Ok layout ->
  NoDup layout.*1 /\
  Forall (fun z => z.2 <> []) layout /\
  exists id,
    forall zone_name cats c,
      (zone_name, cats) ∈ layout -> c ∈ cats ->
      exists s sl sz zc,
        s ∈ stores d /\ sl ∈ store_locations d /\
        sz ∈ store_zones d /\ zc ∈ zone_categories d /\
        s_store_id s = id /\ sl_store_id sl = id /\
        sz_location_id sz = sl_location_id sl /\ zc_zone_id zc = sz_zone_id sz /\
        sz_zone_name sz = zone_name /\ zc_category zc = c.
Proof.
  unfold get_store_layout. intros H.
  assert (exists id, layout = layout_of_id d id) as [id ->].
  { destruct store_id as [[|n]|]; [| injection H as <-; eauto |];
      (destruct (PyStr.truthy_opt store_name); [|done]);
      (destruct (get_store_id d (default "" store_name) postal_code) as [[|n]|];
       [done | injection H as <-; eauto | done]). }
  destruct (layout_of_id_wellformed d id) as (H1 & H2 & H3).
  split; [done|]. split; [done|]. by exists id.
Qed.

(** X8: for a store that is not in the table, the lookup by id returns the
    empty layout, while the lookup by name raises the not-found
    [ValueError]; with neither an id nor a name it raises as well. *)
Theorem get_store_layout_unknown d n store_name postal_code :
  (forall s, s ∈ stores d -> s_store_id s <> S n) ->
  (forall s, s ∈ stores d -> s_name s <> store_name) ->
  store_name <> "" ->
  get_store_layout d (Some (S n)) None None = Ok [] /\
  get_store_layout d None (Some store_name) postal_code
    = Raise (not_found store_name postal_code) /\
  get_store_layout d (Some 0) (Some store_name) postal_code
    = Raise (not_found store_name postal_code) /\
  get_store_layout d None None postal_code
    = Raise (ValueError "Either store_id or store_name must be provided.").
Proof.
  intros Hid Hname Hne.
  assert (Hrows : layout_rows d (S n) = []).
  { unfold layout_rows. apply bind_all_nil. intros s Hs.
    apply bind_all_nil. intros sl _. apply bind_all_nil. intros sz _.
    apply bind_all_nil. intros zc _. rewrite decide_False; [done|].
    intros (_ & _ & _ & E). by apply (Hid s). }
  assert (Hraise : get_store_id d store_name postal_code
                   = Raise (not_found store_name postal_code)).
  { unfold get_store_id. destruct (PyStr.truthy_opt postal_code).
    - rewrite bind_all_nil; [done|]. intros s Hs. apply bind_all_nil. intros sl _.
      rewrite decide_False; [done|]. intros (_ & E & _). by apply (Hname s).
    - rewrite bind_all_nil; [done|]. intros s Hs.
      rewrite decide_False; [done|]. by apply Hname. }
  assert (Ht : PyStr.truthy_opt (Some store_name) = true).
  { simpl. unfold PyStr.truthy. destruct (String.eqb_spec store_name ""); done. }
  unfold get_store_layout. rewrite Ht. simpl default. rewrite Hraise.
  repeat split. unfold layout_of_id. by rewrite Hrows.
Qed.

End LayoutInvariants.

(** ** Words and normalized names *)

Section WordFacts.
Import PyStr.

Lemma append_cons c s t :
  String.append (String c s) t = String c (String.append s t).
Proof. reflexivity. Qed.

Lemma append_nil_l t : String.append EmptyString t = t.
Proof. reflexivity. Qed.

Lemma append_nil_r s : String.append s EmptyString = s.
Proof. induction s as [|c s IH]; [done|]. by rewrite append_cons, IH. Qed.

Lemma append_assoc_s s1 s2 s3 :
  String.append (String.append s1 s2) s3 = String.append s1 (String.append s2 s3).
Proof.
  induction s1 as [|c s1 IH]; [done|]. by rewrite !append_cons, IH.
Qed.

Lemma all_chars_app p s1 s2 :
  all_chars p (String.append s1 s2) = all_chars p s1 && all_chars p s2.
Proof.
  induction s1 as [|c s1 IH]; [done|].
  rewrite append_cons. simpl. rewrite IH. by rewrite andb_assoc.
Qed.

Lemma split_go_word cur w rest :
  all_chars (fun c => negb (is_space c)) w = true ->
  split_go cur (String.append w rest) = split_go (String.append cur w) rest.
Proof.
  revert cur. induction w as [|c w IH]; intros cur Hw.
  - by rewrite append_nil_l, append_nil_r.
  - simpl in Hw. apply andb_true_iff in Hw as [Hc Hw].
    apply negb_true_iff in Hc. rewrite append_cons. simpl. rewrite Hc, IH by done.
    by rewrite append_assoc_s.
Qed.

Lemma concat_two sep w w' ws :
  String.concat sep (w :: w' :: ws)
  = String.append w (String.append sep (String.concat sep (w' :: ws))).
Proof. reflexivity. Qed.

Lemma split_join ws : Forall is_word ws -> split (join " " ws) = ws.
Proof.
  unfold split, join. induction 1 as [|w ws [Hne Hw] Hws IH]; [done|].
  destruct ws as [|w' ws].
  - change (String.concat " " [w]) with w.
    rewrite <- (append_nil_r w) at 1. rewrite split_go_word by done.
    rewrite append_nil_l. simpl. by rewrite decide_False.
  - rewrite concat_two, split_go_word by done.
    rewrite append_nil_l, append_cons, append_nil_l.
    change (split_go w (String " " (String.concat " " (w' :: ws))))
      with ((if decide (w = EmptyString) then [] else [w])
            ++ split_go EmptyString (String.concat " " (w' :: ws))).
    rewrite decide_False by done. by rewrite IH.
Qed.

Lemma split_go_words cur s :
  all_chars (fun c => negb (is_space c)) cur = true ->
  Forall is_word (split_go cur s).
Proof.
  revert cur. induction s as [|c s IH]; intros cur Hcur; simpl.
  - case_decide; [constructor|]. by repeat constructor.
  - destruct (is_space c) eqn:Hc.
    + apply Forall_app. split; [|by apply IH].
      case_decide; [constructor|]. by repeat constructor.
    + apply IH. rewrite all_chars_app, Hcur. simpl. by rewrite Hc.
Qed.

Lemma split_words s : Forall is_word (split s).
Proof. by apply split_go_words. Qed.

Lemma split_first_three x :
  split (Organize.first_three x) = take 3 (split x).
Proof.
  unfold Organize.first_three. apply split_join.
  apply Forall_take, split_words.
Qed.

Lemma first_three_words_aux x :
  split (Organize.first_three x) = take 3 (split x) /\
  length (split (Organize.first_three x)) <= 3 /\
  Organize.first_three (Organize.first_three x) = Organize.first_three x.
Proof.
  split; [apply split_first_three|]. split.
  - rewrite split_first_three, length_take. lia.
  - unfold Organize.first_three at 1. rewrite split_first_three.
    by rewrite take_take.
Qed.

(** X9: [first_three] keeps the first three words of a name, separated by
    single spaces: splitting its result gives those words back, so the
    result has at most three words and is left alone by a second pass. *)
Theorem first_three_words x :
  split (Organize.first_three x) = take 3 (split x) /\
  length (split (Organize.first_three x)) <= 3 /\
  Organize.first_three (Organize.first_three x) = Organize.first_three x.
Proof.
  split; [apply split_first_three|]. split.
  - rewrite split_first_three, length_take. lia.
  - unfold Organize.first_three at 1. rewrite split_first_three.
    by rewrite take_take.
Qed.

End WordFacts.

(** ** What the chain and the heuristic return *)

Section ChainResults.
Import Db Organize.

Local Ltac unfold_M :=
  unfold mbind, M_bind, mret, M_ret, bind, ret, lift, raise in *.

Lemma bucket_names_allowed :
  Forall (fun c => c ∈ ALLOWED_CATEGORIES) HEURISTIC_BUCKETS.*1.
Proof. by apply (bool_decide_unpack _). Qed.

Lemma heuristic_form item :
  (heuristic item).1 ∈ ALLOWED_CATEGORIES /\
  (heuristic item).2 = first_three (_prettify_name item).
Proof.
  unfold heuristic.
  destruct (heuristic_bucket _ HEURISTIC_BUCKETS) as [[cat kw]|] eqn:E; simpl.
  - split; [|done].
    apply heuristic_bucket_first in E as (pre & kws & post & Heq & _).
    pose proof bucket_names_allowed as H. rewrite Forall_forall in H. apply H.
    rewrite Heq, fmap_app. apply elem_of_app. right. csimpl. apply elem_of_cons. by left.
  - split; [|done]. by apply (bool_decide_unpack _).
Qed.

Local Opaque heuristic first_three make_prompt _parse_dict_from_ai_response read_fields.

Lemma chain_result_form e item st cat norm st' :
  ai_fallback_classify e item st = (Ok (cat, norm), st') ->
  cat ∈ ALLOWED_CATEGORIES /\ exists x, norm = first_three x.
Proof.
  assert (Hheur : forall c n, heuristic item = (c, n) ->
            c ∈ ALLOWED_CATEGORIES /\ exists x, n = first_three x).
  { intros c n H. destruct (heuristic_form item) as [H1 H2]. rewrite H in H1, H2.
    simpl in *. split; [done|]. eauto. }
  unfold ai_fallback_classify, first_response, _call_llm. unfold_M.
  intros H.
  repeat (first [ case_match | case_decide ]; simplify_eq; try done);
    eauto.
Qed.

(** X10: whenever the escalation chain returns a classification, its
    category is one of the twelve allowed categories and its normalized name
    has at most three words, separated by single spaces. *)
Theorem chain_result_valid e item st cat norm st' :
  ai_fallback_classify e item st = (Ok (cat, norm), st') ->
  cat ∈ ALLOWED_CATEGORIES /\
  length (PyStr.split norm) <= 3 /\
  first_three norm = norm.
Proof.
  intros H. apply chain_result_form in H as [Hc [x ->]].
  split; [done|].
  destruct (first_three_words_aux x) as (_ & ? & ?). done.
Qed.

End ChainResults.

Section ChainPaths.
Import Db Organize.

Local Ltac unfold_M :=
  unfold mbind, M_bind, mret, M_ret, bind, ret, lift, raise in *.

(** X11: on a cache miss the resolver returns either a classification of
    the chain (source 'ai', an allowed category, a name of at most three
    words) or the fallback ('Misc', the prettified item, source
    'fallback'). *)
Theorem resolver_miss_result e item st cat norm src st' :
  get_cached_item (db st) (normalize_item_key item) = None ->
  classify_item_with_cache e item st = ((cat, norm, src), st') ->
  (src = "ai" /\ cat ∈ ALLOWED_CATEGORIES /\ length (PyStr.split norm) <= 3) \/
  (src = "fallback" /\ cat = "Misc" /\ norm = _prettify_name item).
Proof.
  intros Hmiss. rewrite (classify_miss _ _ _ Hmiss). unfold classify_uncached.
  destruct (ai_fallback_classify e item st) as [[[c n]|ex] st1] eqn:E.
  - intros [= <- <- <- _]. left. split; [done|].
    apply chain_result_form in E as [Hc [x ->]]. split; [done|].
    destruct (first_three_words_aux x) as (_ & ? & _). done.
  - intros [= <- <- <- _]. right. split; [done|]. split; [done|].
    unfold normalize_item_key. apply prettify_key.
Qed.

Local Opaque heuristic first_three make_prompt read_fields.

(** X12: when a credential is set and the primary call fails for any
    reason other than the client error (the library cannot be imported, or
    the call raises something else), the chain makes that one call only and
    returns the heuristic's classification. *)
Theorem chain_transport_failure e item st :
  let prompt := make_prompt item in
  let pm := default "gemini-2.5-flash" (GEMENI_PRIMARY_MODEL e) in
  PyStr.truthy_opt (GEMENI_FREE_API e) = true ->
  genai e (llm_log st) pm prompt = ImportFailed \/
  genai e (llm_log st) pm prompt = RaisedOther ->
  ai_fallback_classify e item st =
  (Ok (heuristic item),
   mkState (db st) (llm_log st ++ [mkCall Primary pm prompt])).
Proof.
  intros prompt pm Hkey Hout.
  unfold ai_fallback_classify, first_response, _call_llm. unfold_M.
  fold prompt pm. rewrite Hkey.
  destruct Hout as [-> | ->]; reflexivity.
Qed.

Lemma find_after_none pat s :
  PyStr.contains pat s = false -> PyStr.find_after pat s = None.
Proof.
  assert (Hc : forall s, PyStr.contains pat s =
            String.prefix pat s ||
            match s with EmptyString => false | String _ s' => PyStr.contains pat s' end)
    by (by intros []).
  assert (Hf : forall s, PyStr.find_after pat s =
            if String.prefix pat s then Some (PyStr.drop (String.length pat) s)
            else match s with
                 | EmptyString => None
                 | String _ s' => PyStr.find_after pat s'
                 end)
    by (by intros []).
  induction s as [|c s IH]; rewrite Hc, Hf; intros H;
    apply orb_false_iff in H as [-> H]; [done|]. by apply IH.
Qed.

(** X13: an answer without the opening fence is never handed to the JSON
    parser: the chain makes the one call and returns the heuristic's
    classification. *)
Theorem chain_unfenced_answer e item st text :
  let prompt := make_prompt item in
  let pm := default "gemini-2.5-flash" (GEMENI_PRIMARY_MODEL e) in
  PyStr.truthy_opt (GEMENI_FREE_API e) = true ->
  genai e (llm_log st) pm prompt = Responded text ->
  PyStr.contains fence_open text = false ->
  _parse_dict_from_ai_response e text = PNone /\
  ai_fallback_classify e item st =
  (Ok (heuristic item),
   mkState (db st) (llm_log st ++ [mkCall Primary pm prompt])).
Proof.
  intros prompt pm Hkey Hout Hno.
  assert (Hp : _parse_dict_from_ai_response e text = PNone).
  { unfold _parse_dict_from_ai_response, search_fence.
    by rewrite (find_after_none _ _ Hno). }
  split; [done|].
  unfold ai_fallback_classify, first_response, _call_llm. unfold_M.
  fold prompt pm. rewrite Hkey, Hout. cbn beta iota.
  rewrite decide_False by discriminate. cbn beta iota.
  rewrite decide_True by done. by rewrite Hp.
Qed.

Local Transparent heuristic.

(** X14: on ASCII items the heuristic depends on the item only through
    what the cache key keeps of it: two ASCII spellings with the same
    normalized key get the same category and the same name. *)
Theorem heuristic_respects_key item1 item2 :
  is_ascii item1 = true -> is_ascii item2 = true ->
  normalize_item_key item1 = normalize_item_key item2 ->
  heuristic item1 = heuristic item2.
Proof.
  intros _ _ Hk. unfold normalize_item_key in Hk. unfold heuristic. rewrite Hk.
  assert (Hp : _prettify_name item1 = _prettify_name item2).
  { by rewrite <- (prettify_key item1), <- (prettify_key item2), Hk. }
  by rewrite Hp.
Qed.

(** X15: the heuristic returns the category of the first bucket one of
    whose keywords occurs in the lowercased, trimmed item (a longest such
    keyword of that bucket being the one found), and 'Misc' when no keyword
    of any bucket occurs; the name is the prettified item cut to three
    words. *)
Theorem heuristic_first_match item :
  let lowered := PyStr.lower (PyStr.strip item) in
  (heuristic item).2 = first_three (_prettify_name item) /\
  match heuristic_bucket lowered HEURISTIC_BUCKETS with
  | Some (cat, kw) =>
      (heuristic item).1 = cat /\
      exists pre keywords post,
        HEURISTIC_BUCKETS = pre ++ (cat, keywords) :: post /\
        Forall (fun b => Forall (fun k => PyStr.contains k lowered = false) b.2) pre /\
        kw ∈ keywords /\ PyStr.contains kw lowered = true /\
        forall k, k ∈ keywords -> PyStr.contains k lowered = true ->
                  String.length k <= String.length kw
  | None =>
      (heuristic item).1 = "Misc" /\
      Forall (fun b => Forall (fun k => PyStr.contains k lowered = false) b.2)
             HEURISTIC_BUCKETS
  end.
Proof.
  intros lowered. unfold heuristic. fold lowered.
  destruct (heuristic_bucket lowered HEURISTIC_BUCKETS) as [[cat kw]|] eqn:E.
  - split; [done|]. split; [done|]. by apply heuristic_bucket_first.
  - split; [done|]. split; [done|]. by apply heuristic_bucket_none.
Qed.

End ChainPaths.

(** ** What a request leaves in the state, and what its groups hold *)

Section RequestFacts.
Import Db Organize.

Lemma extends_refl st : extends st st.
Proof. by repeat split. Qed.

Lemma extends_trans st1 st2 st3 : extends st1 st2 -> extends st2 st3 -> extends st1 st3.
Proof.
  intros (A1 & A2 & A3 & A4 & A5 & A6) (B1 & B2 & B3 & B4 & B5 & B6).
  repeat split; try congruence; by etrans.
Qed.

Lemma classify_extends e item st :
  extends st (classify_item_with_cache e item st).2.
Proof.
  destruct (get_cached_item (db st) (normalize_item_key item)) as [row|] eqn:Hc.
  - rewrite (classify_hit _ _ _ _ Hc). apply extends_refl.
  - rewrite (classify_miss _ _ _ Hc).
    destruct (classify_uncached_cases e item st Hc)
      as (cat & norm & src & st' & Hrun & Hlog & Hcases).
    rewrite Hrun. simpl.
    assert (Hpre : llm_log st `prefix_of` llm_log st').
    { rewrite Hlog. destruct (ai_fallback_run e item st) as (r & calls & -> & _).
      simpl. by apply prefix_app_r. }
    destruct Hcases as [[_ Hdb]|(_ & _ & _ & Hdb)]; unfold extends; rewrite Hdb.
    + by repeat split.
    + repeat split; try done. simpl. by apply insert_subseteq.
Qed.

Lemma group_items_extends e its grouped st :
  extends st (group_items e its grouped st).2.
Proof.
  revert grouped st. induction its as [|item its IH]; intros grouped st; simpl.
  - apply extends_refl.
  - pose proof (classify_extends e item st) as H.
    destruct (classify_item_with_cache e item st) as [[[cat norm] src] st1].
    eapply extends_trans; [exact H|apply IH].
Qed.

(** X16: a resolution, and a whole [order_items] request, only add to the
    state: the layout tables are as before, every cache record that existed
    is still there unchanged, and the log of model calls is extended at its
    end. *)
Theorem request_only_adds e store_id item its st :
  let st1 := (classify_item_with_cache e item st).2 in
  let st2 := (order_items e store_id its st).2 in
  (stores (db st1) = stores (db st) /\
   store_locations (db st1) = store_locations (db st) /\
   store_zones (db st1) = store_zones (db st) /\
   zone_categories (db st1) = zone_categories (db st) /\
   item_cache (db st) ⊆ item_cache (db st1) /\
   llm_log st `prefix_of` llm_log st1) /\
  (stores (db st2) = stores (db st) /\
   store_locations (db st2) = store_locations (db st) /\
   store_zones (db st2) = store_zones (db st) /\
   zone_categories (db st2) = zone_categories (db st) /\
   item_cache (db st) ⊆ item_cache (db st2) /\
   llm_log st `prefix_of` llm_log st2).
Proof.
  intros st1 st2. split; [apply classify_extends|].
  subst st2. destruct (order_items_state e store_id its st) as [->|[g ->]].
  - apply extends_refl.
  - apply group_items_extends.
Qed.

Lemma group_items_classify_all e its grouped st :
  group_items e its grouped st =
  (fold_left (fun g r => od_append r.1.1 r.1.2 g) (classify_all e its st).1 grouped,
   (classify_all e its st).2).
Proof.
  revert grouped st. induction its as [|item its IH]; intros grouped st; simpl; [done|].
  destruct (classify_item_with_cache e item st) as [[[cat norm] src] st1].
  rewrite IH. by destruct (classify_all e its st1).
Qed.

Lemma od_get_append c k v d :
  od_get c (od_append k v d) =
  if decide (c = k) then Some (default [] (od_get c d) ++ [v]) else od_get c d.
Proof.
  induction d as [|[k' vs] d IH]; simpl.
  - destruct (decide (c = k)); done.
  - destruct (decide (k = k')) as [->|Hkk']; simpl.
    + destruct (decide (c = k')); done.
    + rewrite IH. destruct (decide (c = k')) as [->|Hck'].
      * by rewrite decide_False by done.
      * done.
Qed.

Lemma od_get_fold rs grouped c :
  od_get c (fold_left (fun g r => od_append r.1.1 r.1.2 g) rs grouped) =
  match names_of c rs with
  | [] => od_get c grouped
  | names => Some (default [] (od_get c grouped) ++ names)
  end.
Proof.
  revert grouped. induction rs as [|[[cat norm] src] rs IH]; intros grouped; simpl; [done|].
  rewrite IH, od_get_append. unfold names_of. rewrite filter_cons. simpl.
  destruct (decide (cat = c)) as [->|Hne].
  - rewrite decide_True by done. csimpl.
    destruct ((fun r : string * string * string => r.1.2) <$>
              filter (fun r : string * string * string => r.1.1 = c) rs); simpl.
    + done.
    + by rewrite <- app_assoc.
  - by rewrite decide_False by done.
Qed.

Lemma build_output_labels layout grouped :
  NoDup layout -> NoDup (od_keys grouped) ->
  zone <$> build_output layout grouped ≡ₚ od_keys grouped.
Proof.
  intros Hl Hg. unfold build_output. rewrite fmap_app, !zone_emit.
  rewrite sort_by_perm.
  apply NoDup_Permutation; [|done|].
  - apply NoDup_app. split; [by apply NoDup_filter|]. split; [|by apply NoDup_filter].
    intros c [_ Hc]%list_elem_of_filter [Hc' _]%list_elem_of_filter. done.
  - intros c. rewrite elem_of_app, !list_elem_of_filter, od_get_is_Some.
    destruct (decide (c ∈ layout)); tauto.
Qed.

Lemma od_values_by_key d :
  NoDup (od_keys d) -> (fun c => default [] (od_get c d)) <$> od_keys d = d.*2.
Proof.
  unfold od_keys. induction d as [|[k vs] d IH]; intros Hnd; csimpl; [done|].
  apply NoDup_cons in Hnd as [Hk Hnd]. rewrite decide_True by done. simpl. f_equal.
  rewrite <- IH by done. apply list_fmap_ext. intros i c Hc.
  rewrite decide_False; [done|]. intros ->. apply Hk.
  by eapply list_elem_of_lookup_2.
Qed.

Lemma concat_length_perm {A} (l l' : list (list A)) :
  l ≡ₚ l' -> length (concat l) = length (concat l').
Proof.
  induction 1; simpl; rewrite ?length_app; try lia.
Qed.

Lemma od_append_count k v d :
  length (concat (od_append k v d).*2) = S (length (concat d.*2)).
Proof.
  induction d as [|[k' vs] d IH]; csimpl; [done|].
  case_decide; csimpl; rewrite !length_app; [simpl; lia|]. rewrite IH. lia.
Qed.

Lemma od_fold_count (rs : list (string * string * string)) grouped :
  length (concat (fold_left (fun g r => od_append r.1.1 r.1.2 g) rs grouped).*2)
  = length (concat grouped.*2) + length rs.
Proof.
  revert grouped. induction rs as [|r rs IH]; intros grouped; simpl; [lia|].
  rewrite IH, od_append_count. lia.
Qed.

(** X17: the groups of a request hold the resolver's results and nothing
    else: there is one group for each category that some item was resolved
    to, its names are the normalized names of those items in the order the
    items were given, and the groups together hold as many names as there
    were items. *)
Theorem order_groups_content e db_layout its st :
  let results := (classify_all e its st).1 in
  let output := (order_with_layout e db_layout its st).1 in
  (order_with_layout e db_layout its st).2 = (classify_all e its st).2 /\
  NoDup (zone <$> output) /\
  (forall c, c ∈ zone <$> output <-> exists r, r ∈ results /\ r.1.1 = c) /\
  Forall (fun g => items g = names_of (zone g) results) output /\
  length (concat (items <$> output)) = length its.
Proof.
  intros results output. subst output. unfold order_with_layout.
  rewrite group_items_classify_all. fold results. simpl.
  set (grouped := fold_left (fun g r => od_append r.1.1 r.1.2 g) results []).
  set (layout := flatten_layout db_layout).
  assert (Hlay : NoDup layout).
  { subst layout. rewrite flatten_layout_spec. apply first_occurrences_NoDup. }
  destruct (group_items_inv e its [] st) as [Hnd _]; [constructor|constructor|].
  rewrite group_items_classify_all in Hnd. simpl in Hnd. fold results grouped in Hnd.
  pose proof (build_output_labels layout grouped Hlay Hnd) as Hperm.
  assert (Hget : forall c, od_get c grouped =
            match names_of c results with [] => None | names => Some names end).
  { intros c. subst grouped. rewrite od_get_fold. simpl.
    by destruct (names_of c results). }
  assert (Hkeys : forall c, c ∈ od_keys grouped <-> exists r, r ∈ results /\ r.1.1 = c).
  { intros c. rewrite <- od_get_is_Some, Hget. unfold names_of.
    destruct (filter (fun r : string * string * string => r.1.1 = c) results)
      as [|r rs] eqn:E; csimpl.
    - split; [by intros [? ?]|]. intros (r & Hr & Hc).
      assert (Hin : r ∈ filter (fun r : string * string * string => r.1.1 = c) results)
        by (by apply list_elem_of_filter).
      rewrite E in Hin. by apply elem_of_nil in Hin.
    - split; [|by eauto]. intros _. exists r.
      assert (Hin : r ∈ filter (fun r : string * string * string => r.1.1 = c) results)
        by (rewrite E; apply elem_of_cons; by left).
      apply list_elem_of_filter in Hin as [? ?]. done. }
  split; [done|]. split; [by rewrite Hperm|]. split; [intros c; by rewrite Hperm|].
  split.
  - unfold build_output. apply Forall_app.
    split; apply Forall_fmap, Forall_forall; intros c _; unfold emit; simpl;
      rewrite Hget; by destruct (names_of c results).
  - assert (Hitems : items <$> build_output layout grouped
                     = (fun c => default [] (od_get c grouped))
                         <$> (zone <$> build_output layout grouped)).
    { unfold build_output. rewrite !fmap_app, <- !list_fmap_compose. done. }
    rewrite Hitems. rewrite (concat_length_perm _ (grouped.*2)).
    + subst grouped. rewrite od_fold_count. simpl. subst results.
      clear. revert st. induction its as [|item its IH]; intros st; simpl; [done|].
      destruct (classify_item_with_cache e item st) as [r st1]. specialize (IH st1).
      destruct (classify_all e its st1). simpl in *. lia.
    + rewrite <- od_values_by_key by done. by apply fmap_Permutation.
Qed.

End RequestFacts.

(** ** The command line's item list *)

Section CliFacts.
Import PyStr Cli.

Lemma all_chars_lstrip p s : all_chars p s = true -> all_chars p (lstrip s) = true.
Proof.
  induction s as [|c s IH]; simpl; [done|]. intros [Hc Hs]%andb_true_iff.
  destruct (is_space c); [by apply IH|]. simpl. by rewrite Hc, Hs.
Qed.

Lemma all_chars_rstrip p s : all_chars p s = true -> all_chars p (rstrip s) = true.
Proof.
  induction s as [|c s IH]; [done|]. rewrite rstrip_cons. simpl.
  intros [Hc Hs]%andb_true_iff. specialize (IH Hs).
  destruct (rstrip s); [destruct (is_space c); simpl; by rewrite ?Hc|].
  simpl in *. by rewrite Hc, IH.
Qed.

Lemma all_chars_strip p s : all_chars p s = true -> all_chars p (strip s) = true.
Proof. intros H. by apply all_chars_rstrip, all_chars_lstrip. Qed.

Lemma split_on_go_fields sep cur s :
  all_chars (fun c => negb (bool_decide (c = sep))) cur = true ->
  Forall (fun p => all_chars (fun c => negb (bool_decide (c = sep))) p = true)
         (split_on_go sep cur s).
Proof.
  revert cur. induction s as [|c s IH]; intros cur Hcur; simpl.
  - by repeat constructor.
  - case_decide as Hc.
    + constructor; [done|]. by apply IH.
    + apply IH. rewrite all_chars_app, Hcur. simpl.
      by rewrite bool_decide_eq_false_2.
Qed.

(** X18: every item read from [--list] is non-empty, trimmed and free of
    commas, whatever the argument. *)
Theorem parse_list_items l :
  Forall is_list_item (parse_list l).
Proof.
  unfold parse_list. apply Forall_fmap, Forall_forall. intros p Hp.
  apply list_elem_of_filter in Hp as [Ht Hp]. simpl. repeat split.
  - intros E. unfold truthy in Ht. by rewrite E in Ht.
  - apply strip_idem.
  - apply all_chars_strip.
    pose proof (split_on_go_fields comma EmptyString l eq_refl) as H.
    rewrite Forall_forall in H. by apply H.
Qed.

Lemma split_on_go_field sep cur w rest :
  all_chars (fun c => negb (bool_decide (c = sep))) w = true ->
  split_on_go sep cur (String.append w rest)
  = split_on_go sep (String.append cur w) rest.
Proof.
  revert cur. induction w as [|c w IH]; intros cur Hw.
  - by rewrite append_nil_l, append_nil_r.
  - simpl in Hw. apply andb_true_iff in Hw as [Hc Hw].
    apply negb_true_iff, bool_decide_eq_false in Hc.
    rewrite append_cons. simpl. rewrite decide_False by done.
    rewrite IH by done. by rewrite append_assoc_s.
Qed.

Lemma split_on_join sep w ws :
  Forall (fun p => all_chars (fun c => negb (bool_decide (c = sep))) p = true) (w :: ws) ->
  split_on sep (String.concat (String sep EmptyString) (w :: ws)) = w :: ws.
Proof.
  unfold split_on. revert w. induction ws as [|w' ws IH]; intros w Hall.
  - inversion Hall; subst. change (String.concat (String sep "") [w]) with w.
    rewrite <- (append_nil_r w) at 1. rewrite split_on_go_field by done.
    by rewrite append_nil_l.
  - inversion Hall as [|? ? Hw Hrest]; subst.
    rewrite concat_two, split_on_go_field by done.
    rewrite append_nil_l, append_cons, append_nil_l. simpl.
    rewrite decide_True by done. f_equal. by apply IH.
Qed.

(** X19: joining items with commas and reading the result back as
    [--list] gives the items again, provided each item is non-empty, trimmed
    and free of commas. *)
Theorem parse_list_join items :
  Forall is_list_item items ->
  parse_list (join "," items) = items.
Proof.
  intros Hall. unfold parse_list, join.
  destruct items as [|w ws]; [by vm_compute|].
  change ","%string with (String comma EmptyString).
  rewrite split_on_join.
  2: { eapply Forall_impl; [exact Hall|]. by intros p (_ & _ & ?). }
  assert (Hkeep : filter (fun p => truthy (strip p) = true) (w :: ws) = w :: ws).
  { clear -Hall. induction Hall as [|p ps (Hne & Hs & _) _ IH]; [done|].
    rewrite filter_cons_True, IH; [done|]. simpl. rewrite Hs. unfold truthy.
    by destruct (String.eqb_spec p ""). }
  rewrite Hkeep. clear Hkeep.
  induction Hall as [|p ps (_ & Hs & _) _ IH]; csimpl; [done|]. by rewrite Hs, IH.
Qed.

End CliFacts.

(** ** Importing a CSV file *)

Section BackfillFacts.
Import Db Backfill.

Lemma cache_item_keeps_keys d item c n src k :
  is_Some (item_cache d !! k) -> is_Some (item_cache (cache_item d item c n src) !! k).
Proof.
  intros Hk. unfold cache_item.
  destruct (item_cache d !! normalize_item_key item) as [old|] eqn:E;
    [case_decide; [done|]|]; simpl;
    (destruct (decide (normalize_item_key item = k)) as [<-|Hne];
     [rewrite lookup_insert_eq; eauto | by rewrite lookup_insert_ne]).
Qed.

Lemma cache_item_has_key d item c n src :
  is_Some (item_cache (cache_item d item c n src) !! normalize_item_key item).
Proof.
  unfold cache_item.
  destruct (item_cache d !! normalize_item_key item) as [old|] eqn:E;
    [case_decide; [by rewrite E|]|]; simpl; rewrite lookup_insert_eq; eauto.
Qed.

(** X20: importing rows never changes a manual record and never touches
    the layout tables, whether the import ends normally or raises on a short
    row. *)
Theorem import_csv_keeps_manual rows d key r :
  item_cache d !! key = Some r -> source r = "manual" ->
  let d' := (import_csv rows d).2 in
  item_cache d' !! key = Some r /\
  stores d' = stores d /\ store_locations d' = store_locations d /\
  store_zones d' = store_zones d /\ zone_categories d' = zone_categories d.
Proof.
  intros Hk Hm. unfold import_csv. generalize 0. revert d Hk.
  induction rows as [|row rows IH]; intros d Hk count; simpl; [done|].
  destruct (get_strip row "item" "") as [item|]; [|done].
  destruct (negb (PyStr.truthy item)); [by apply IH|].
  destruct (get_strip row "category" "") as [c|]; [|done].
  destruct (get_strip row "normalized_name" "") as [n|]; [|done].
  destruct (get_strip row "source" "rules") as [src|]; [|done].
  destruct (IH (cache_item d item c n src)
              (cache_item_keeps_manual _ _ _ _ _ _ _ Hk Hm) (S count))
    as (H1 & H2 & H3 & H4 & H5).
  destruct (cache_item_tables d item c n src) as (T1 & T2 & T3 & T4).
  repeat split; congruence.
Qed.

Lemma import_rows_ok rows count d n d' :
  import_rows rows count d = (Ok n, d') ->
  n = count + length (filter (fun row => importable row = true) rows) /\
  (forall k, is_Some (item_cache d !! k) -> is_Some (item_cache d' !! k)) /\
  (forall row item, row ∈ rows -> get_strip row "item" "" = Ok item ->
     item <> "" -> is_Some (item_cache d' !! normalize_item_key item)).
Proof.
  revert count d. induction rows as [|row rows IH]; intros count d; simpl.
  - intros [= <- <-]. split; [simpl; lia|]. split; [done|].
    intros row item Hin. by apply elem_of_nil in Hin.
  - rewrite filter_cons.
    destruct (get_strip row "item" "") as [item|] eqn:Ei; [|done].
    destruct (PyStr.truthy item) eqn:Et; simpl.
    + destruct (get_strip row "category" "") as [c|]; [|done].
      destruct (get_strip row "normalized_name" "") as [nm|]; [|done].
      destruct (get_strip row "source" "rules") as [src|]; [|done].
      intros H. apply IH in H as (Hn & Hkeep & Hrows).
      rewrite decide_True by (unfold importable; by rewrite Ei). split; [simpl; lia|]. split.
      * intros k Hk. by apply Hkeep, cache_item_keeps_keys.
      * intros row' item' [->|Hin]%elem_of_cons Hi Hne; [|by eapply Hrows].
        rewrite Ei in Hi. injection Hi as <-. apply Hkeep, cache_item_has_key.
    + intros H. apply IH in H as (Hn & Hkeep & Hrows).
      rewrite decide_False by (unfold importable; rewrite Ei, Et; discriminate).
      split; [done|]. split; [done|].
      intros row' item' [->|Hin]%elem_of_cons Hi Hne; [|by eapply Hrows].
      rewrite Ei in Hi. injection Hi as <-. unfold PyStr.truthy in Et.
      destruct (String.eqb_spec item ""); [done|discriminate].
Qed.

(** X21: when the import ends normally, it reports the number of rows
    whose item is not blank, and every such row's item is then in the cache
    under its normalized key, as are all the keys that were there before. *)
Theorem import_csv_complete rows d n d' :
  import_csv rows d = (Ok n, d') ->
  n = length (filter (fun row => importable row = true) rows) /\
  n <= length rows /\
  (forall k, is_Some (item_cache d !! k) -> is_Some (item_cache d' !! k)) /\
  (forall row item, row ∈ rows -> get_strip row "item" "" = Ok item ->
     item <> "" -> is_Some (get_cached_item d' (normalize_item_key item))).
Proof.
  intros H. apply import_rows_ok in H as (-> & Hkeep & Hrows).
  split; [done|]. split; [apply length_filter|]. split; [exact Hkeep|exact Hrows].
Qed.

End BackfillFacts.

(** ** The fenced payload *)

Section FenceFacts.
Import PyStr Organize.

Lemma prefix_split pat s :
  String.prefix pat s = true -> s = String.append pat (drop (String.length pat) s).
Proof.
  revert s. induction pat as [|a pat IH]; intros s H; [done|].
  destruct s as [|b s]; [done|]. simpl in H.
  destruct (ascii_dec a b) as [->|]; [|done].
  rewrite append_cons. simpl. f_equal. by apply IH.
Qed.

Lemma find_after_eq pat s :
  find_after pat s =
  if String.prefix pat s then Some (drop (String.length pat) s)
  else match s with
       | EmptyString => None
       | String _ s' => find_after pat s'
       end.
Proof. by destruct s. Qed.

Lemma take_until_eq pat s :
  take_until pat s =
  if String.prefix pat s then Some EmptyString
  else match s with
       | EmptyString => None
       | String c s' => option_map (String c) (take_until pat s')
       end.
Proof. by destruct s. Qed.

Lemma find_after_sound pat s r :
  find_after pat s = Some r -> exists pre, s = String.append pre (String.append pat r).
Proof.
  induction s as [|c s IH]; rewrite find_after_eq;
    destruct (String.prefix pat _) eqn:E; try done.
  - intros [= <-]. exists EmptyString. rewrite append_nil_l. by apply prefix_split.
  - intros [= <-]. exists EmptyString. rewrite append_nil_l. by apply prefix_split.
  - intros (pre & ->)%IH. exists (String c pre). by rewrite append_cons.
Qed.

Lemma take_until_sound pat s g :
  take_until pat s = Some g -> exists post, s = String.append g (String.append pat post).
Proof.
  revert g. induction s as [|c s IH]; intros g; rewrite take_until_eq;
    destruct (String.prefix pat _) eqn:E; try done.
  - intros [= <-]. exists (drop (String.length pat) "").
    rewrite append_nil_l. by apply prefix_split.
  - intros [= <-]. exists (drop (String.length pat) (String c s)).
    rewrite append_nil_l. by apply prefix_split.
  - destruct (take_until pat s) as [g'|]; [|done]. simpl. intros [= <-].
    destruct (IH g' eq_refl) as (post & ->). exists post. by rewrite append_cons.
Qed.

(** X22: the text handed to the JSON parser lies between an opening
    [```json] line and a closing fence of the answer. *)
Theorem search_fence_sound text group1 :
  search_fence text = Some group1 ->
  exists before after,
    text = String.append before
             (String.append fence_open
                (String.append group1 (String.append fence_close after))).
Proof.
  unfold search_fence.
  destruct (find_after fence_open text) as [rest|] eqn:E; [|done].
  intros (after & ->)%take_until_sound.
  apply find_after_sound in E as (before & ->). by exists before, after.
Qed.

End FenceFacts.

(** ** Registering a layout *)

Section RegistrationFacts.
Import Db DbAdmin.

Lemma bind_app_list {A B} (f : A -> list B) (l1 l2 : list A) :
  (x ← l1 ++ l2; f x) = (x ← l1; f x) ++ (x ← l2; f x).
Proof. induction l1 as [|a l1 IH]; csimpl; [done|]. by rewrite IH, app_assoc. Qed.

Lemma next_id_fresh ids x : x ∈ ids -> x < next_id ids.
Proof. intros H. unfold next_id. apply max_list_elem_of_le in H. lia. Qed.

Lemma grows_refl d : grows d d.
Proof. by repeat split. Qed.

Lemma grows_trans d1 d2 d3 : grows d1 d2 -> grows d2 d3 -> grows d1 d3.
Proof.
  intros (A1 & A2 & A3 & A4 & A5) (B1 & B2 & B3 & B4 & B5).
  repeat split; [congruence|by etrans..].
Qed.

Lemma get_or_create_store_run d name chain :
  exists store_id d1,
    get_or_create_store d name chain = Done (store_id, d1) /\
    grows d d1 /\ store_locations d1 = store_locations d /\
    store_zones d1 = store_zones d /\ zone_categories d1 = zone_categories d /\
    get_store_id d1 name None = Ok store_id /\
    ((exists s, s ∈ stores d /\ s_name s = name) -> d1 = d) /\
    ((forall s, s ∈ stores d -> s_name s <> name) ->
       stores d1 = stores d ++ [mkStore store_id name chain] /\
       store_id = next_id (s_store_id <$> stores d)).
Proof.
  unfold get_or_create_store, get_store_id. simpl.
  destruct (decide (Exists (fun s => s_name s = name) (stores d))) as [Hex|Hnex].
  - destruct (stores d ≫= _) as [|id ids] eqn:E.
    + apply Exists_exists in Hex as (s & Hs & Hn).
      pose proof (bind_nil_all _ _ E s Hs) as E1. cbn beta in E1.
      by rewrite decide_True in E1.
    + exists id, d. split; [done|]. split; [apply grows_refl|].
      do 3 (split; [done|]). split; [by rewrite E|]. split; [done|].
      intros Hall. apply Exists_exists in Hex as (s & Hs & Hn). by destruct (Hall s Hs).
  - assert (Hall : forall s, s ∈ stores d -> s_name s <> name).
    { intros s Hs Hn. apply Hnex, Exists_exists. eauto. }
    set (new := mkStore (next_id (s_store_id <$> stores d)) name chain).
    assert (Hb : (s ← stores d ++ [new];
                  if decide (s_name s = name) then [s_store_id s] else [])
                 = [s_store_id new]).
    { rewrite bind_app_list, bind_all_nil.
      - csimpl. by rewrite decide_True.
      - intros s Hs. by rewrite decide_False by (by apply Hall). }
    cbn [stores set_stores]. rewrite Hb.
    eexists _, _. split; [done|]. split.
    { repeat split; try done. simpl. by apply prefix_app_r. }
    do 3 (split; [done|]). split; [simpl; by rewrite Hb|]. split; [|done].
    intros (s & Hs & Hn). by destruct (Hall s Hs).
Qed.

(** X23: [get_or_create_store] always returns the id under which
    [get_store_id] then finds the name; for a known name the database is
    left as it is, for a new one a single row with a fresh id is appended;
    names stay unique. *)
Theorem get_or_create_store_spec d name chain :
  exists store_id d1,
    get_or_create_store d name chain = Done (store_id, d1) /\
    get_store_id d1 name None = Ok store_id /\
    ((exists s, s ∈ stores d /\ s_name s = name) -> d1 = d) /\
    ((forall s, s ∈ stores d -> s_name s <> name) ->
       stores d1 = stores d ++ [mkStore store_id name chain] /\
       forall s, s ∈ stores d -> s_store_id s < store_id) /\
    (NoDup (s_name <$> stores d) -> NoDup (s_name <$> stores d1)) /\
    item_cache d1 = item_cache d /\ store_locations d1 = store_locations d /\
    store_zones d1 = store_zones d /\ zone_categories d1 = zone_categories d.
Proof.
  destruct (get_or_create_store_run d name chain)
    as (id & d1 & Hrun & (Hc & _) & Hl & Hz & Hzc & Hid & Hold & Hnew).
  exists id, d1. split; [done|]. split; [done|]. split; [done|]. split.
  - intros Hall. destruct (Hnew Hall) as [Hs ->]. split; [done|].
    intros s Hs'. apply next_id_fresh. by apply list_elem_of_fmap_2.
  - split; [|done]. intros Hnd.
    destruct (decide (Exists (fun s => s_name s = name) (stores d))) as [Hex|Hnex].
    + rewrite Hold; [done|]. apply Exists_exists in Hex as (s & ? & ?). eauto.
    + assert (Hall : forall s, s ∈ stores d -> s_name s <> name).
      { intros s Hs Hn. apply Hnex, Exists_exists. eauto. }
      destruct (Hnew Hall) as [-> _]. rewrite fmap_app. apply NoDup_app.
      split; [done|]. split; [|apply NoDup_singleton].
      intros x Hx Hx'. apply list_elem_of_singleton in Hx'. subst x.
      apply list_elem_of_fmap in Hx as (s & Hn & Hs). by destruct (Hall s Hs).
Qed.

(** X24: a layout cannot be registered without a postal code: the location
    row is inserted but cannot be read back, the call raises [TypeError]
    and nothing is committed. *)
Theorem add_store_layout_needs_postal_code d store_name chain city state zones :
  add_store_layout d store_name chain city state None zones = TypeError.
Proof.
  unfold add_store_layout.
  destruct (get_or_create_store_run d store_name chain) as (id & d1 & -> & _).
  unfold get_or_create_location.
  rewrite bind_all_nil; [done|]. intros sl _.
  rewrite decide_False; [done|]. by intros (_ & _ & ?).
Qed.

End RegistrationFacts.

Section RegistrationFrame.
Import Db DbAdmin.

Lemma get_or_create_location_grows d store_id city state postal_code location_id d1 :
  get_or_create_location d store_id city state postal_code = Done (location_id, d1) ->
  grows d d1.
Proof.
  unfold get_or_create_location. case_decide.
  - destruct (store_locations d ≫= _); [done|]. intros [= _ <-]. apply grows_refl.
  - match goal with |- context [match ?l with _ => _ end] => destruct l end; [done|].
    intros [= _ <-]. repeat split; try done. simpl. by apply prefix_app_r.
Qed.

Lemma insert_categories_grows d zone_id categories :
  grows d (insert_categories d zone_id categories).
Proof.
  revert d. induction categories as [|c cs IH]; intros d; simpl; [apply grows_refl|].
  case_decide; [apply IH|]. eapply grows_trans; [|apply IH].
  repeat split; try done. simpl. by apply prefix_app_r.
Qed.

Lemma insert_zones_from_grows order d location_id zones zone_ids ids' d' :
  insert_zones_from order d location_id zones zone_ids = Done (ids', d') ->
  grows d d'.
Proof.
  revert order d zone_ids. induction zones as [|[zn cats] zones IH];
    intros order d zone_ids; simpl.
  - intros [= _ <-]. apply grows_refl.
  - match goal with |- context [match ?l with [] => _ | _ => _ end] =>
      destruct l as [|zid ?] end; [done|].
    intros H%IH. eapply grows_trans; [|exact H].
    eapply grows_trans; [|apply insert_categories_grows].
    case_decide; [apply grows_refl|].
    repeat split; try done. simpl. by apply prefix_app_r.
Qed.

(** X25: registering a layout only appends rows: when [add_store_layout]
    succeeds the item cache is untouched and every row of the four layout
    tables is still there, in place, before the new ones. *)
Theorem add_store_layout_only_appends d store_name chain city state postal_code zones d' :
  add_store_layout d store_name chain city state postal_code zones = Done d' ->
  item_cache d' = item_cache d /\
  stores d `prefix_of` stores d' /\
  store_locations d `prefix_of` store_locations d' /\
  store_zones d `prefix_of` store_zones d' /\
  zone_categories d `prefix_of` zone_categories d'.
Proof.
  unfold add_store_layout.
  destruct (get_or_create_store_run d store_name chain) as (id & d1 & -> & G1 & _).
  destruct (get_or_create_location d1 id city state postal_code)
    as [[lid d2]|] eqn:E2; [|done].
  apply get_or_create_location_grows in E2.
  unfold insert_zones.
  destruct (insert_zones_from 1 d2 lid zones []) as [[ids d3]|] eqn:E3; [|done].
  apply insert_zones_from_grows in E3. intros [= <-].
  exact (grows_trans _ _ _ G1 (grows_trans _ _ _ E2 E3)).
Qed.

End RegistrationFrame.

Section RegistrationRoundTrip.
Import Db DbAdmin.

Lemma bind_ext_in {A B} (f g : A -> list B) (l : list A) :
  (forall x, x ∈ l -> f x = g x) -> (x ← l; f x) = (x ← l; g x).
Proof.
  induction l as [|a l IH]; intros H; csimpl; [done|].
  rewrite H by (apply elem_of_cons; by left). f_equal.
  apply IH. intros x Hx. apply H, elem_of_cons. by right.
Qed.

Lemma insert_categories_fresh d zone_id categories :
  (forall zc, zc ∈ zone_categories d -> zc_zone_id zc = zone_id ->
              zc_category zc ∉ categories) ->
  NoDup categories ->
  insert_categories d zone_id categories =
  set_zone_categories d (zone_categories d ++ (mkZoneCategory zone_id <$> categories)).
Proof.
  revert d. induction categories as [|c cs IH]; intros d Hfree Hnd; simpl.
  - rewrite app_nil_r. by destruct d.
  - apply NoDup_cons in Hnd as [Hc Hnd].
    rewrite decide_False.
    2: { intros (zc & Hzc & Hid & Hcat)%Exists_exists.
         apply (Hfree zc Hzc Hid). rewrite Hcat. apply elem_of_cons. by left. }
    rewrite IH; [|..|done].
    + unfold set_zone_categories. simpl. by rewrite <- app_assoc.
    + intros zc [Hzc|Hzc]%elem_of_app Hid.
      * intros Hin. apply (Hfree zc Hzc Hid). apply elem_of_cons. by right.
      * apply list_elem_of_singleton in Hzc. by subst zc.
Qed.

Lemma location_rows_step d location_id zone_id zone_name order categories :
  (forall sz, sz ∈ store_zones d -> sz_zone_id sz <> zone_id) ->
  (forall zc, zc ∈ zone_categories d -> zc_zone_id zc <> zone_id) ->
  Archive.location_rows
    (set_zone_categories
       (set_store_zones d (store_zones d ++ [mkZone zone_id location_id zone_name order]))
       (zone_categories d ++ (mkZoneCategory zone_id <$> categories)))
    location_id
  = Archive.location_rows d location_id
    ++ ((fun c => (order, (zone_name, c))) <$> categories).
Proof.
  intros Hz Hzc. unfold Archive.location_rows. simpl.
  rewrite bind_app_list. f_equal.
  - apply bind_ext_in. intros sz Hsz. rewrite bind_app_list.
    rewrite (bind_all_nil _ (mkZoneCategory zone_id <$> categories)).
    + by rewrite app_nil_r.
    + intros zc (c & -> & _)%list_elem_of_fmap. simpl.
      rewrite decide_False; [done|]. intros [E _]. by apply (Hz sz).
  - csimpl. rewrite app_nil_r, bind_app_list, bind_all_nil.
    2: { intros zc Hin. simpl. rewrite decide_False; [done|].
         intros [E _]. by apply (Hzc zc). }
    simpl. induction categories as [|c cs IH]; csimpl; [done|].
    rewrite decide_True by done. simpl. by rewrite IH.
Qed.

(** A location whose zones so far have orders below [order] and names not
    among the zones to come: each zone is inserted, found again, and gets
    all its categories. *)
Lemma insert_zones_from_fresh order d location_id zones zone_ids :
  (forall sz, sz ∈ store_zones d -> sz_location_id sz = location_id ->
     sz_zone_order sz < order /\ sz_zone_name sz ∉ zones.*1) ->
  (forall zc, zc ∈ zone_categories d ->
     zc_zone_id zc ∈ sz_zone_id <$> store_zones d) ->
  NoDup zones.*1 ->
  Forall (fun z => NoDup z.2) zones ->
  exists ids' d',
    insert_zones_from order d location_id zones zone_ids = Done (ids', d') /\
    stores d' = stores d /\ store_locations d' = store_locations d /\
    Archive.location_rows d' location_id
    = Archive.location_rows d location_id ++ expected_rows order zones.
Proof.
  revert order d zone_ids. induction zones as [|[zn cats] zones IH];
    intros order d zone_ids HA HB Hnd Hcats.
  - simpl. eexists _, _. split; [done|]. by rewrite app_nil_r.
  - csimpl in Hnd. apply NoDup_cons in Hnd as [Hzn Hnd].
    inversion Hcats as [|? ? Hc Hcats']; subst. simpl in Hc.
    set (zid := next_id (sz_zone_id <$> store_zones d)).
    assert (Hzid : forall sz, sz ∈ store_zones d -> sz_zone_id sz <> zid).
    { intros sz Hsz. pose proof (next_id_fresh (sz_zone_id <$> store_zones d)
        (sz_zone_id sz) (list_elem_of_fmap_2 _ _ _ Hsz)). unfold zid. lia. }
    assert (Hzcid : forall zc, zc ∈ zone_categories d -> zc_zone_id zc <> zid).
    { intros zc Hzc. pose proof (next_id_fresh _ _ (HB zc Hzc)). unfold zid. lia. }
    simpl. rewrite decide_False.
    2: { intros (sz & Hsz & Hl & Ho)%Exists_exists.
         destruct (HA sz Hsz Hl) as [Hlt _]. lia. }
    fold zid. cbn [store_zones set_store_zones].
    rewrite bind_app_list, bind_all_nil.
    2: { intros sz Hsz. rewrite decide_False; [done|]. intros [Hl Hn].
         destruct (HA sz Hsz Hl) as [_ Hnot]. apply Hnot. rewrite Hn. csimpl.
         apply elem_of_cons. by left. }
    csimpl. rewrite decide_True by done. simpl.
    rewrite insert_categories_fresh; [|..|done].
    2: { intros zc Hzc Hid. simpl in Hzc. by destruct (Hzcid zc Hzc). }
    simpl zone_categories.
    match goal with |- context [insert_zones_from _ ?d2 _ _ ?ids2] =>
      destruct (IH (S order) d2 ids2) as (ids' & d' & Hrun & Hs & Hl & Hrows) end.
    + simpl. intros sz [Hsz|Hsz]%elem_of_app Hloc.
      * destruct (HA sz Hsz Hloc) as [Hlt Hnot]. split; [lia|].
        intros Hin. apply Hnot. csimpl. apply elem_of_cons. by right.
      * apply list_elem_of_singleton in Hsz. subst sz. simpl. split; [lia|done].
    + simpl. intros zc [Hzc|Hzc]%elem_of_app; rewrite fmap_app; apply elem_of_app.
      * left. by apply HB.
      * right. apply list_elem_of_fmap in Hzc as (c & -> & _). simpl.
        by apply list_elem_of_singleton.
    + done.
    + done.
    + exists ids', d'. split; [done|]. split; [done|]. split; [done|].
      rewrite Hrows, location_rows_step by done. by rewrite <- app_assoc.
Qed.

Lemma sorted_sort_by_id {A} (before : A -> A -> bool) l :
  StronglySorted (fun a b => before a b = true) l -> PyStr.sort_by before l = l.
Proof.
  induction 1 as [|x l _ IH Hx]; simpl; [done|]. rewrite IH.
  destruct l as [|y l]; [done|]. simpl. inversion Hx; subst. by rewrite H1.
Qed.

Lemma expected_rows_sorted order zones :
  Forall (fun r => order <= r.1) (expected_rows order zones) /\
  StronglySorted (fun a b => Nat.leb a.1 b.1 = true) (expected_rows order zones).
Proof.
  revert order. induction zones as [|[zn cats] zones IH]; intros order; simpl.
  - split; constructor.
  - destruct (IH (S order)) as [Hge Hs].
    assert (Hhead : Forall (fun r : nat * (string * string) => r.1 = order)
                      ((fun c => (order, (zn, c))) <$> cats)).
    { apply Forall_fmap, Forall_forall. by intros. }
    split.
    + apply Forall_app. split.
      * eapply Forall_impl; [exact Hhead|]. simpl. intros; lia.
      * eapply Forall_impl; [exact Hge|]. simpl. intros; lia.
    + apply StronglySorted_app_2; [| |done].
      * intros r1 r2 H1 H2. rewrite Forall_forall in Hhead, Hge.
        apply Nat.leb_le. rewrite (Hhead r1 H1). specialize (Hge r2 H2). simpl in Hge. lia.
      * clear -Hhead. induction cats as [|c cs IH]; csimpl; [constructor|].
        csimpl in Hhead. inversion Hhead as [|? ? _ Hrest]; subst.
        constructor; [by apply IH|].
        eapply Forall_impl; [exact Hrest|]. simpl. intros r ->. by apply Nat.leb_le.
Qed.

Lemma od_append_new k v acc :
  k ∉ od_keys acc -> od_append k v acc = acc ++ [(k, [v])].
Proof.
  unfold od_keys. induction acc as [|[k' vs] acc IH]; csimpl; intros Hk; [done|].
  apply not_elem_of_cons in Hk as [Hne Hk]. rewrite decide_False by done.
  by rewrite IH.
Qed.

Lemma od_append_last k v vs acc :
  k ∉ od_keys acc -> od_append k v (acc ++ [(k, vs)]) = acc ++ [(k, vs ++ [v])].
Proof.
  unfold od_keys. induction acc as [|[k' vs'] acc IH]; csimpl; intros Hk.
  - by rewrite decide_True.
  - apply not_elem_of_cons in Hk as [Hne Hk]. rewrite decide_False by done.
    by rewrite IH.
Qed.

Lemma group_one_zone zn cs vs acc :
  zn ∉ od_keys acc ->
  fold_left (fun zones '(zone_name, category) => od_append zone_name category zones)
            ((fun c => (zn, c)) <$> cs) (acc ++ [(zn, vs)])
  = acc ++ [(zn, vs ++ cs)].
Proof.
  intros Hk. revert vs. induction cs as [|c cs IH]; intros vs; csimpl.
  - by rewrite app_nil_r.
  - rewrite od_append_last by done. rewrite IH. by rewrite <- app_assoc.
Qed.

Lemma group_expected order zones acc :
  NoDup zones.*1 -> Forall (fun z => z.2 <> []) zones ->
  (forall z, z ∈ zones.*1 -> z ∉ od_keys acc) ->
  fold_left (fun zs '(zone_name, category) => od_append zone_name category zs)
            (expected_rows order zones).*2 acc
  = acc ++ zones.
Proof.
  revert order acc. induction zones as [|[zn cats] zones IH];
    intros order acc Hnd Hne Hdis; simpl.
  - by rewrite app_nil_r.
  - csimpl in Hnd. apply NoDup_cons in Hnd as [Hzn Hnd].
    inversion Hne as [|? ? Hc Hne']; subst. simpl in Hc.
    assert (Hk : zn ∉ od_keys acc) by (apply Hdis; csimpl; apply elem_of_cons; by left).
    rewrite fmap_app, fold_left_app, <- list_fmap_compose.
    destruct cats as [|c cs]; [done|]. csimpl.
    rewrite od_append_new by done.
    change ((snd ∘ (fun c0 : string => (order, (zn, c0)))) <$> cs)
      with ((fun c0 => (zn, c0)) <$> cs).
    rewrite group_one_zone by done. simpl.
    rewrite IH; [by rewrite <- app_assoc|done|done|].
    intros z Hz. unfold od_keys. rewrite fmap_app. apply not_elem_of_app. split.
    + apply Hdis. csimpl. apply elem_of_cons. by right.
    + csimpl. intros Hin%list_elem_of_singleton. by subst.
Qed.

Lemma filter_all {A} (P : A -> Prop) `{!forall x, Decision (P x)} (l : list A) :
  Forall P l -> filter P l = l.
Proof.
  induction 1 as [|x l Hx _ IH]; [done|]. by rewrite filter_cons_True, IH.
Qed.

Lemma filter_none {A} (P : A -> Prop) `{!forall x, Decision (P x)} (l : list A) :
  Forall (fun x => ~ P x) l -> filter P l = [].
Proof.
  induction 1 as [|x l Hx _ IH]; [done|]. by rewrite filter_cons_False.
Qed.

Lemma StronglySorted_filter_keep {A} (R : A -> A -> Prop) (P : A -> Prop)
    `{!forall x, Decision (P x)} (l : list A) :
  StronglySorted R l -> StronglySorted R (filter P l).
Proof.
  induction 1 as [|x l _ IH Hx]; [constructor|].
  rewrite filter_cons. case_decide; [|done].
  constructor; [done|]. rewrite Forall_forall in *.
  intros y Hy. apply list_elem_of_filter in Hy as [_ Hy]. by apply Hx.
Qed.

Lemma fmap_perm_inv {A B} (f : A -> B) (l : list A) (k : list B) :
  k ≡ₚ f <$> l -> exists l', k = f <$> l' /\ l' ≡ₚ l.
Proof.
  intros H. apply Permutation_map_inv in H as (l' & -> & Hp).
  exists l'. split; [done|]. by symmetry.
Qed.

(** In a list sorted by its first components, all of them at least [order],
    the rows of order [order] come first. *)
Lemma sorted_first_key (order : nat) (l : list (nat * (string * string))) :
  StronglySorted (fun r1 r2 => r1.1 <= r2.1) l ->
  Forall (fun r => order <= r.1) l ->
  l = filter (fun r => r.1 = order) l ++ filter (fun r => r.1 <> order) l.
Proof.
  induction 1 as [|x l _ IH Hx]; intros Hall; [done|].
  inversion Hall as [|? ? Hxo Hall']; subst.
  destruct (decide (x.1 = order)) as [E|E].
  - rewrite filter_cons_True by done. rewrite (filter_cons_False (fun r => r.1 <> order)).
    + simpl. f_equal. by apply IH.
    + intros Hn. by apply Hn.
  - assert (Hl : Forall (fun r : nat * (string * string) => r.1 <> order) l).
    { eapply Forall_impl; [exact Hx|]. simpl. intros r Hr. lia. }
    rewrite filter_cons_False by done.
    rewrite (filter_none (fun r => r.1 = order)).
    2: { eapply Forall_impl; [exact Hl|]. simpl. intros r Hr Hn. by apply Hr. }
    rewrite filter_cons_True by done. by rewrite filter_all.
Qed.

(** Whatever order the query returns the rows of a registered layout in,
    the [OrderedDict] loop rebuilds the zones in their order, each with its
    categories in the order the rows had. *)
Lemma group_any_order order zones answer acc :
  NoDup zones.*1 -> Forall (fun z => z.2 <> []) zones ->
  (forall z, z ∈ zones.*1 -> z ∉ od_keys acc) ->
  query_order (expected_rows order zones) answer ->
  exists zones',
    fold_left (fun zs '(zone_name, category) => od_append zone_name category zs)
              answer.*2 acc
    = acc ++ zones' /\ same_zones zones' zones.
Proof.
  revert order answer acc. induction zones as [|[zn cats] zones IH];
    intros order answer acc Hnd Hne Hdis [Hp Hs].
  - simpl in Hp. apply Permutation_nil_r in Hp. subst answer.
    exists []. simpl. rewrite app_nil_r. split; [done|constructor].
  - csimpl in Hnd. apply NoDup_cons in Hnd as [Hzn Hnd].
    inversion Hne as [|? ? Hc Hne']; subst. simpl in Hc.
    assert (Hk : zn ∉ od_keys acc) by (apply Hdis; csimpl; apply elem_of_cons; by left).
    simpl in Hp.
    destruct (expected_rows_sorted (S order) zones) as [Hge _].
    assert (Hblock : Forall (fun r : nat * (string * string) => r.1 = order)
                       ((fun c => (order, (zn, c))) <$> cats)).
    { apply Forall_fmap, Forall_forall. by intros. }
    assert (Hall : Forall (fun r : nat * (string * string) => order <= r.1) answer).
    { rewrite Hp. apply Forall_app. split.
      - eapply Forall_impl; [exact Hblock|]. simpl. intros; lia.
      - eapply Forall_impl; [exact Hge|]. simpl. intros; lia. }
    assert (H1 : filter (fun r : nat * (string * string) => r.1 = order) answer
                 ≡ₚ (fun c => (order, (zn, c))) <$> cats).
    { rewrite Hp, filter_app, filter_all by done.
      rewrite filter_none, app_nil_r; [done|].
      eapply Forall_impl; [exact Hge|]. simpl. intros; lia. }
    assert (H2 : filter (fun r : nat * (string * string) => r.1 <> order) answer
                 ≡ₚ expected_rows (S order) zones).
    { rewrite Hp, filter_app, filter_none.
      - simpl. rewrite filter_all; [done|].
        eapply Forall_impl; [exact Hge|]. simpl. intros; lia.
      - eapply Forall_impl; [exact Hblock|]. simpl. intros r Hr Hn. by apply Hn. }
    apply fmap_perm_inv in H1 as (cats' & H1 & Hcats).
    rewrite (sorted_first_key order answer Hs Hall), H1.
    rewrite fmap_app, fold_left_app, <- list_fmap_compose.
    destruct cats' as [|c cs].
    { apply Permutation_nil_l in Hcats. by destruct Hc. }
    csimpl. rewrite od_append_new by done.
    change ((snd ∘ (fun c0 : string => (order, (zn, c0)))) <$> cs)
      with ((fun c0 => (zn, c0)) <$> cs).
    rewrite group_one_zone by done. simpl.
    destruct (IH (S order)
                 (filter (fun r : nat * (string * string) => r.1 <> order) answer)
                 (acc ++ [(zn, c :: cs)])) as (zones' & Hfold & Hsame).
    + done.
    + done.
    + intros z Hz. unfold od_keys. rewrite fmap_app. apply not_elem_of_app. split.
      * apply Hdis. csimpl. apply elem_of_cons. by right.
      * csimpl. intros Hin%list_elem_of_singleton. by subst.
    + split; [done|]. by apply StronglySorted_filter_keep.
    + exists ((zn, c :: cs) :: zones'). split.
      * rewrite Hfold. by rewrite <- app_assoc.
      * constructor; [|done]. simpl. done.
Qed.

Lemma same_zones_refl layout : same_zones layout layout.
Proof. unfold same_zones. induction layout; constructor; done. Qed.

(** X26: registering a layout for a new store name and reading it back
    gives the same zones, in the same order, each with the categories it
    was registered with, whatever order the database returns the rows of
    one zone in; provided the tables' references point at existing rows, a
    postal code is given, the zone names are pairwise different and every
    zone has categories, without repetition. *)
Theorem add_store_layout_round_trip d store_name chain city state postal_code zones :
  references_ok d ->
  (forall s, s ∈ stores d -> s_name s <> store_name) ->
  store_name <> "" ->
  NoDup zones.*1 ->
  Forall (fun z => z.2 <> [] /\ NoDup z.2) zones ->
  exists d' store_id,
    add_store_layout d store_name chain city state (Some postal_code) zones = Done d' /\
    get_store_id d' store_name None = Ok store_id /\
    (forall answer,
       query_order (layout_rows d' store_id) answer ->
       same_zones (group_zones answer.*2) zones) /\
    (exists layout,
       get_store_layout d' (Some store_id) None None = Ok layout /\
       get_store_layout d' None (Some store_name) None = Ok layout /\
       same_zones layout zones).
Proof.
  intros (R1 & R2 & R3) Hnew Hname Hnd Hzones.
  unfold add_store_layout.
  destruct (get_or_create_store_run d store_name chain)
    as (sid & d1 & -> & _ & Hl1 & Hz1 & Hzc1 & _ & _ & Hcreated).
  destruct (Hcreated Hnew) as [Hs1 Hsid].
  assert (Hsid_fresh : forall s, s ∈ stores d -> s_store_id s <> sid).
  { intros s Hs. pose proof (next_id_fresh _ _ (list_elem_of_fmap_2 s_store_id _ _ Hs)).
    rewrite Hsid. lia. }
  assert (Hloc_sid : forall sl, sl ∈ store_locations d -> sl_store_id sl <> sid).
  { intros sl Hsl E. apply R1 in Hsl. rewrite E in Hsl.
    apply list_elem_of_fmap in Hsl as (s & Hs & Hin). by destruct (Hsid_fresh s Hin). }
  set (lid := next_id (sl_location_id <$> store_locations d)).
  set (new_loc := mkLocation lid sid city state (Some postal_code)).
  set (d2 := set_store_locations d1 (store_locations d ++ [new_loc])).
  assert (Hrun2 : get_or_create_location d1 sid city state (Some postal_code)
                  = Done (lid, d2)).
  { unfold get_or_create_location. rewrite Hl1. rewrite decide_False.
    2: { intros (sl & Hsl & E & _)%Exists_exists. by destruct (Hloc_sid sl Hsl). }
    fold lid new_loc d2. cbn [store_locations set_store_locations d2].
    rewrite bind_app_list, bind_all_nil.
    - csimpl. by rewrite decide_True.
    - intros sl Hsl. rewrite decide_False; [done|]. intros [E _].
      by destruct (Hloc_sid sl Hsl). }
  rewrite Hrun2.
  assert (Hlid_fresh : forall sz, sz ∈ store_zones d -> sz_location_id sz <> lid).
  { intros sz Hsz E. pose proof (next_id_fresh _ _ (R2 sz Hsz)). unfold lid in E. lia. }
  unfold insert_zones.
  destruct (insert_zones_from_fresh 1 d2 lid zones [])
    as (ids' & d3 & -> & Hs3 & Hl3 & Hrows).
  { subst d2. simpl. rewrite Hz1. intros sz Hsz E. by destruct (Hlid_fresh sz Hsz). }
  { subst d2. simpl. rewrite Hz1, Hzc1. exact R3. }
  { done. }
  { eapply Forall_impl; [exact Hzones|]. by intros z [_ ?]. }
  assert (Hempty : Archive.location_rows d2 lid = []).
  { unfold Archive.location_rows. subst d2. simpl. rewrite Hz1.
    apply bind_all_nil. intros sz Hsz. apply bind_all_nil. intros zc _.
    rewrite decide_False; [done|]. intros [_ E]. by destruct (Hlid_fresh sz Hsz). }
  rewrite Hempty in Hrows. simpl in Hrows.
  assert (Hstores3 : stores d3 = stores d ++ [mkStore sid store_name chain]).
  { rewrite Hs3. subst d2. simpl. exact Hs1. }
  assert (Hlocs3 : store_locations d3 = store_locations d ++ [new_loc]).
  { rewrite Hl3. by subst d2. }
  assert (Hlayout_rows : layout_rows d3 sid = expected_rows 1 zones).
  { rewrite <- Hrows. unfold layout_rows, Archive.location_rows.
    rewrite Hstores3, bind_app_list, bind_all_nil.
    2: { intros s Hs. apply bind_all_nil. intros sl _. apply bind_all_nil. intros sz _.
         apply bind_all_nil. intros zc _. rewrite decide_False; [done|].
         intros (_ & _ & _ & E). by destruct (Hsid_fresh s Hs). }
    csimpl. rewrite app_nil_r, Hlocs3, bind_app_list, bind_all_nil.
    2: { intros sl Hsl. apply bind_all_nil. intros sz _. apply bind_all_nil. intros zc _.
         rewrite decide_False; [done|]. intros (E & _). by destruct (Hloc_sid sl Hsl). }
    csimpl. rewrite app_nil_r. apply bind_ext_list. intros sz.
    apply bind_ext_list. intros zc.
    destruct (decide (sz_zone_id sz = zc_zone_id zc ∧ sz_location_id sz = lid))
      as [[E1 E2]|Hno].
    - by rewrite decide_True by (repeat split; congruence).
    - rewrite decide_False; [done|]. intros (_ & E1 & E2 & _). apply Hno. by split. }
  assert (Hlayout : layout_of_id d3 sid = zones).
  { unfold layout_of_id, order_by_zone_order, group_zones. rewrite Hlayout_rows.
    rewrite sorted_sort_by_id by apply expected_rows_sorted.
    rewrite (group_expected 1 zones []); [done|done| |].
    - eapply Forall_impl; [exact Hzones|]. by intros z [? _].
    - intros z _ Hin. by apply elem_of_nil in Hin. }
  assert (Hid : get_store_id d3 store_name None = Ok sid).
  { unfold get_store_id. simpl. rewrite Hstores3, bind_app_list, bind_all_nil.
    - csimpl. by rewrite decide_True.
    - intros s Hs. by rewrite decide_False by (by apply Hnew). }
  assert (Hpos : exists n, sid = S n) by (rewrite Hsid; unfold next_id; eauto).
  destruct Hpos as [n Hn].
  exists d3, sid. split; [done|]. split; [done|]. split.
  { intros answer Hanswer. rewrite Hlayout_rows in Hanswer.
    destruct (group_any_order 1 zones answer []) as (zones' & Hfold & Hsame);
      [done| | |done|].
    - eapply Forall_impl; [exact Hzones|]. by intros z [? _].
    - intros z _ Hin. by apply elem_of_nil in Hin.
    - unfold group_zones. by rewrite Hfold. }
  exists zones. unfold get_store_layout.
  assert (Ht : PyStr.truthy_opt (Some store_name) = true).
  { simpl. unfold PyStr.truthy. by destruct (String.eqb_spec store_name ""). }
  rewrite Ht. simpl default. rewrite Hid. rewrite Hn in *. rewrite Hlayout.
  split; [done|]. split; [done|]. apply same_zones_refl.
Qed.

End RegistrationRoundTrip.

(** ** Longest keywords first *)

Section KeywordOrder.
Import Organize.

(** X27: [longest_first] rearranges the keywords so that no keyword comes
    before a longer one, and keywords of one length keep the order they have
    in the bucket. *)
Theorem longest_first_spec keywords :
  longest_first keywords ≡ₚ keywords /\
  StronglySorted (fun k1 k2 => String.length k2 <= String.length k1)
                 (longest_first keywords) /\
  (forall n, filter (fun k => String.length k = n) (longest_first keywords)
             = filter (fun k => String.length k = n) keywords).
Proof.
  split; [apply longest_first_perm|]. split; [apply longest_first_sorted|].
  intros n. apply longest_first_stable.
Qed.

End KeywordOrder.

(** ** Concrete runs of the further properties *)

Section FurtherRuns.
Import Db Organize DbAdmin Sample Fixtures.

Lemma cache_item_overwrites_witness :
  get_cached_item
    (cache_item (cache_item empty_db " Milk " "Pantry" "Milk" "ai")
                "MILK" "Dairy" "Milk" "rules") "milk"
  = Some (mkCacheRow "Dairy" "Milk" "rules").
Proof.
  refine (proj1 (cache_item_overwrites
                   (cache_item empty_db " Milk " "Pantry" "Milk" "ai")
                   "MILK" "Dairy" "Milk" "rules" _)).
  intros old H. vm_compute in H. injection H as <-. discriminate.
Defined.

Lemma cache_item_then_resolve_witness :
  classify_item_with_cache no_credential "  MILK "
    (mkState (cache_item empty_db "milk" "Dairy" "Milk" "rules") [])
  = (("Dairy", "Milk", "rules"),
     mkState (cache_item empty_db "milk" "Dairy" "Milk" "rules") []).
Proof.
  refine (cache_item_then_resolve no_credential empty_db [] "milk" "  MILK "
            "Dairy" "Milk" "rules" _ _).
  - intros old H. vm_compute in H. discriminate.
  - vm_compute. reflexivity.
Defined.

Lemma get_store_details_agrees_witness :
  get_store_id one_store "ShopRite" (Some "07006") = Ok 1.
Proof.
  refine (proj2 (proj2 (proj2
           (get_store_details_agrees one_store "ShopRite" (Some "07006")
              (mkStoreDetails 1 "ShopRite" (Some "ShopRite") (Some "07006") 1) _ _)))).
  - apply NoDup_singleton.
  - vm_compute. reflexivity.
Defined.

Lemma store_without_location_witness :
  get_store_id two_stores "Costco" None = Ok 2 /\
  get_store_details two_stores "Costco" None = Raise (not_found "Costco" None).
Proof.
  refine (store_without_location two_stores (mkStore 2 "Costco" None) _ _ _).
  - simpl. repeat constructor; intros H;
      repeat (apply elem_of_cons in H as [H|H]; [discriminate|]);
      by apply elem_of_nil in H.
  - simpl. apply elem_of_cons. right. apply elem_of_cons. by left.
  - simpl. intros sl H. apply list_elem_of_singleton in H. subst sl. simpl. lia.
Defined.

Lemma get_store_layout_wellformed_witness :
  NoDup ["Produce"; "Bakery"; "Dairy"; "Frozen"].
Proof.
  refine (proj1 (get_store_layout_wellformed two_locations None (Some "Wegmans") None
                   [("Produce", ["Produce"]); ("Bakery", ["Bakery"]);
                    ("Dairy", ["Dairy"]); ("Frozen", ["Frozen"])] _)).
  vm_compute. reflexivity.
Defined.

Lemma get_store_layout_unknown_witness :
  get_store_layout one_store (Some 7) None None = Ok [] /\
  get_store_layout one_store None (Some "Costco") (Some "07006")
    = Raise (not_found "Costco" (Some "07006")).
Proof.
  destruct (get_store_layout_unknown one_store 6 "Costco" (Some "07006"))
    as (H1 & H2 & _).
  - simpl. intros s H. apply list_elem_of_singleton in H. subst s. simpl. lia.
  - simpl. intros s H. apply list_elem_of_singleton in H. subst s. discriminate.
  - discriminate.
  - split; [exact H1 | exact H2].
Defined.

Lemma chain_result_valid_witness :
  let e := scripted (Some "key")
             [Responded (fenced (payload "produce" "fresh  organic baby spinach leaves"))] in
  "Produce" ∈ ALLOWED_CATEGORIES /\
  length (PyStr.split "Fresh Organic Baby") <= 3.
Proof.
  intros e.
  destruct (chain_result_valid e "spinach" fresh "Produce" "Fresh Organic Baby"
              (ai_fallback_classify e "spinach" fresh).2) as (H1 & H2 & _).
  - vm_compute. reflexivity.
  - split; [exact H1 | exact H2].
Defined.

Lemma resolver_miss_result_witness :
  let e := scripted (Some "key") [Responded (fenced (payload_no_name "Produce"))] in
  ("fallback" = "ai" /\ "Misc" ∈ ALLOWED_CATEGORIES /\
   length (PyStr.split "Oat Milk Barista Edition") <= 3) \/
  ("fallback" = "fallback" /\ "Misc" = "Misc" /\
   "Oat Milk Barista Edition" = _prettify_name " oat milk BARISTA edition").
Proof.
  intros e.
  refine (resolver_miss_result e " oat milk BARISTA edition" fresh
            "Misc" "Oat Milk Barista Edition" "fallback"
            (classify_item_with_cache e " oat milk BARISTA edition" fresh).2 _ _).
  - vm_compute. reflexivity.
  - vm_compute. reflexivity.
Defined.

Lemma chain_transport_failure_witness :
  (ai_fallback_classify (scripted (Some "key") []) "salmon fillet" fresh).1
  = Ok ("Seafood", "Salmon Fillet").
Proof.
  rewrite (chain_transport_failure (scripted (Some "key") []) "salmon fillet" fresh).
  - vm_compute. reflexivity.
  - reflexivity.
  - right. reflexivity.
Defined.

Lemma chain_unfenced_answer_witness :
  (ai_fallback_classify (scripted (Some "key") [Responded "NOT JSON"])
     "salmon fillet" fresh).1
  = Ok ("Seafood", "Salmon Fillet").
Proof.
  destruct (chain_unfenced_answer (scripted (Some "key") [Responded "NOT JSON"])
              "salmon fillet" fresh "NOT JSON") as [_ H].
  - reflexivity.
  - reflexivity.
  - vm_compute. reflexivity.
  - rewrite H. vm_compute. reflexivity.
Defined.

Lemma heuristic_respects_key_witness :
  heuristic "  Greek YOGURT" = heuristic "greek yogurt ".
Proof.
  apply heuristic_respects_key; vm_compute; reflexivity.
Defined.

Lemma parse_list_join_witness :
  Cli.parse_list "milk,ice cream,eggs" = ["milk"; "ice cream"; "eggs"].
Proof.
  refine (parse_list_join ["milk"; "ice cream"; "eggs"] _).
  repeat constructor; try discriminate; vm_compute; reflexivity.
Defined.

Lemma import_csv_keeps_manual_witness :
  item_cache (Backfill.import_csv
                [[("item", Some "Ice cream"); ("category", Some "Dairy");
                  ("normalized_name", Some "Ice Cream"); ("source", Some "rules")]]
                (db pinned)).2
    !! "ice cream" = Some (mkCacheRow "Frozen" "Ice Cream" "manual").
Proof.
  refine (proj1 (import_csv_keeps_manual _ (db pinned) "ice cream"
                   (mkCacheRow "Frozen" "Ice Cream" "manual") _ _)).
  - vm_compute. reflexivity.
  - reflexivity.
Defined.

Lemma import_csv_complete_witness :
  2 = length (filter (fun row => importable row = true) csv_rows) /\ 2 <= 3.
Proof.
  destruct (import_csv_complete csv_rows empty_db 2
              (Backfill.import_csv csv_rows empty_db).2) as (H1 & H2 & _).
  - vm_compute. reflexivity.
  - split; [exact H1 | exact H2].
Defined.

Lemma search_fence_sound_witness :
  exists before after,
    fenced (payload "Dairy" "Milk") =
    String.append before
      (String.append fence_open
         (String.append (String.append (payload "Dairy" "Milk") PyStr.nl)
            (String.append fence_close after))).
Proof.
  apply search_fence_sound. vm_compute. reflexivity.
Defined.

Lemma add_store_layout_only_appends_witness :
  stores one_store `prefix_of`
  stores (match add_store_layout one_store "Wegmans" None None None (Some "07054")
                  wegmans_zones with
          | Done d' => d'
          | TypeError => one_store
          end).
Proof.
  refine (proj1 (proj2 (add_store_layout_only_appends one_store "Wegmans" None None None
                          (Some "07054") wegmans_zones _ _))).
  vm_compute. reflexivity.
Defined.

Lemma add_store_layout_round_trip_witness :
  exists d' store_id,
    add_store_layout one_store "Wegmans" (Some "Wegmans") (Some "Parsippany")
      (Some "NJ") (Some "07054") wegmans_zones = Done d' /\
    get_store_id d' "Wegmans" None = Ok store_id /\
    (forall answer,
       query_order (layout_rows d' store_id) answer ->
       same_zones (group_zones answer.*2) wegmans_zones) /\
    (exists layout,
       get_store_layout d' (Some store_id) None None = Ok layout /\
       get_store_layout d' None (Some "Wegmans") None = Ok layout /\
       same_zones layout wegmans_zones).
Proof.
  apply add_store_layout_round_trip.
  - repeat split; simpl; intros x H; apply list_elem_of_singleton in H; subst x;
      simpl; by apply list_elem_of_singleton.
  - simpl. intros s H. apply list_elem_of_singleton in H. subst s. discriminate.
  - discriminate.
  - by apply (bool_decide_unpack _).
  - repeat constructor; try discriminate; intros H;
      repeat (apply elem_of_cons in H as [H|H]; [discriminate|]);
      by apply elem_of_nil in H.
Defined.

End FurtherRuns.

Section RegistrationConflict.
Import Db DbAdmin Fixtures.

(** X28: when the location already has a zone at the position of the zone
    to insert, and no zone of the new name, [insert_zones] raises
    [TypeError]: the insert is ignored and the zone cannot be read back. *)
Theorem insert_zones_conflict d location_id zone_name categories zones :
  (exists sz, sz ∈ store_zones d /\ sz_location_id sz = location_id /\
              sz_zone_order sz = 1) ->
  (forall sz, sz ∈ store_zones d -> sz_location_id sz = location_id ->
              sz_zone_name sz <> zone_name) ->
  insert_zones d location_id ((zone_name, categories) :: zones) = TypeError.
Proof.
  intros (sz & Hsz & Hl & Ho) Hname. unfold insert_zones. simpl.
  rewrite decide_True by (apply Exists_exists; eauto).
  rewrite bind_all_nil; [done|]. intros sz' Hsz'.
  rewrite decide_False; [done|]. intros [E1 E2]. by apply (Hname sz').
Qed.

Lemma insert_zones_conflict_witness :
  insert_zones one_store 1 wegmans_zones = TypeError.
Proof.
  apply insert_zones_conflict.
  - exists (mkZone 1 1 "Bakery" 1). split; [by apply list_elem_of_singleton|done].
  - simpl. intros sz H _. apply list_elem_of_singleton in H. subst sz. discriminate.
Defined.

End RegistrationConflict.
